(** * AT91 peripheral clocks: drivers/clk/at91/clk-peripheral.c

    A shallow embedding of the two peripheral clock nodes of the AT91 power
    management controller (PMC) and of their clk_ops, followed by the
    properties of the driver's specification.

    Conventions of the embedding.
    - [u32], [unsigned int] and [unsigned long] values are integers of [Z].
      The driver only shifts rates to the right and subtracts a smaller rate
      from a larger one, so no operation on a rate can wrap around: the
      statements only ask rates to be non-negative and hold for any word
      size.  [clk_sam9x5_peripheral_round_rate] returns [long]; the model
      returns the [unsigned long] it computes (the same machine word), and
      [long_of_ulong] is the number that word is as a [long].
    - The register transport (regmap), the header constants of the PMC and
      the rate of the parent clock, which the clock framework owns, are not
      part of clk-peripheral.c.  The first two are interfaces (type classes)
      over which the whole development is parametric; the third is a field
      of the state the operations run in.
    - A function with side effects is a computation in a state monad; it
      reads top to bottom like its C body, an early [return] being the branch
      of a conditional that ends the computation. *)

From Stdlib Require Import ZArith Lia Bool List String.
Import ListNotations.
Local Open Scope Z_scope.

Set Implicit Arguments.

(** ** A state monad for register and node updates *)

Definition State (S A : Type) : Type := S -> A * S.

Definition ret {S A : Type} (a : A) : State S A := fun s => (a, s).

Definition bind {S A B : Type} (m : State S A) (k : A -> State S B)
  : State S B :=
  fun s => let (a, s') := m s in k a s'.

Definition gets {S A : Type} (f : S -> A) : State S A := fun s => (f s, s).

Definition modify {S : Type} (f : S -> S) : State S unit :=
  fun s => (tt, f s).

Notation "x <- m ;; k" := (bind m (fun x => k))
  (at level 61, m at next level, right associativity).
Notation "m ;; k" := (bind m (fun _ => k))
  (at level 61, right associativity).

(** ** Constants of the file *)

Definition PERIPHERAL_ID_MIN : Z := 2.
Definition PERIPHERAL_ID_MAX : Z := 31.

(** The mask is used as an [unsigned int] (the value written by
    [regmap_write], the operand of [&] with the status word): bit
    [id & 31], also for bit 31. *)
Definition PERIPHERAL_MASK (id : Z) : Z :=
  Z.shiftl 1 (Z.land id PERIPHERAL_ID_MAX).

Definition PERIPHERAL_MAX_SHIFT : Z := 3.

(** errno values (errno-base.h); an [int] result is [0] or [- errno]. *)
Definition EINVAL : Z := 22.
Definition ENOMEM : Z := 12.

(** Every loop of the file runs [shift] from at least [0] up to
    [PERIPHERAL_MAX_SHIFT] in steps of one, so its condition is evaluated at
    most five times; the loops below recurse on this bound and test the
    condition of the source at each turn. *)
Definition shift_turns : nat := 5.

(** ** Data *)

(** [struct clk_range] (pmc.h). *)
Module clk_range.
Record t : Type := mk { min : Z; max : Z }.
End clk_range.

(** [struct clk_pcr_layout] (pmc.h): the fields this file reads. *)
Module clk_pcr_layout.
Record t : Type := mk { offset : Z; cmd : Z; div_mask : Z; pid_mask : Z }.
End clk_pcr_layout.

(** [struct clk_peripheral]: the legacy node.  The regmap it points to is the
    state its operations run in. *)
Module clk_peripheral.
Record t : Type := mk { id : Z }.
End clk_peripheral.

(** [struct clk_sam9x5_peripheral]: the indirectly addressed node.  Its
    regmap and its lock live in the state of the operations, see [world]. *)
Module clk_sam9x5_peripheral.
Record t : Type := mk {
  range : clk_range.t;
  id : Z;
  div : Z;
  layout : clk_pcr_layout.t;
  auto_div : bool
}.

Definition set_div (v : Z) (p : t) : t :=
  mk (range p) (id p) v (layout p) (auto_div p).

Definition set_auto_div (b : bool) (p : t) : t :=
  mk (range p) (id p) (div p) (layout p) b.
End clk_sam9x5_peripheral.

(** What a registration function returns: a node, or [ERR_PTR(err)]. *)
Inductive clk_hw_ptr (T : Type) : Type :=
| HW (periph : T)
| ERR_PTR (err : Z).
Arguments HW {T} periph.
Arguments ERR_PTR {T} err.

(** ** Interfaces the file is compiled against *)

(** The names of at91_pmc.h and pmc.h that clk-peripheral.c uses; the headers
    are not part of the file, so their values are left open. *)
Class PmcHeader : Type := {
  AT91_PMC_PCER : Z;
  AT91_PMC_PCDR : Z;
  AT91_PMC_PCSR : Z;
  AT91_PMC_PCER1 : Z;
  AT91_PMC_PCDR1 : Z;
  AT91_PMC_PCSR1 : Z;
  AT91_PMC_PCR_EN : Z;
  field_get : Z -> Z -> Z;
  field_prep : Z -> Z -> Z
}.

(** The register transport.  It is assumed not to fail (the driver ignores
    the results of the three calls), so a read yields the register value. *)
Class Regmap (R : Type) : Type := {
  regmap_write : Z -> Z -> State R unit;
  regmap_read : Z -> State R Z;
  regmap_update_bits : Z -> Z -> Z -> State R unit
}.

Section Driver.

Context {hdr : PmcHeader}.

(** ** The legacy node *)

Section Legacy.

Context {R : Type} {rm : Regmap R}.

Definition clk_peripheral_enable (periph : clk_peripheral.t) : State R Z :=
  let offset := AT91_PMC_PCER in
  let id := clk_peripheral.id periph in
  if id <? PERIPHERAL_ID_MIN then ret 0 else
  let offset := if PERIPHERAL_ID_MAX <? id then AT91_PMC_PCER1 else offset in
  regmap_write offset (PERIPHERAL_MASK id) ;;
  ret 0.

Definition clk_peripheral_disable (periph : clk_peripheral.t)
  : State R unit :=
  let offset := AT91_PMC_PCDR in
  let id := clk_peripheral.id periph in
  if id <? PERIPHERAL_ID_MIN then ret tt else
  let offset := if PERIPHERAL_ID_MAX <? id then AT91_PMC_PCDR1 else offset in
  regmap_write offset (PERIPHERAL_MASK id).

Definition clk_peripheral_is_enabled (periph : clk_peripheral.t)
  : State R Z :=
  let offset := AT91_PMC_PCSR in
  let id := clk_peripheral.id periph in
  if id <? PERIPHERAL_ID_MIN then ret 1 else
  let offset := if PERIPHERAL_ID_MAX <? id then AT91_PMC_PCSR1 else offset in
  status <- regmap_read offset ;;
  ret (if Z.land status (PERIPHERAL_MASK id) =? 0 then 0 else 1).

End Legacy.

(** [at91_clk_register_peripheral].  [name] and [parent_name] are [None] for
    a null pointer; [kzalloc_ok] tells whether the allocation succeeds and
    [clk_hw_register_ret] is what the clock framework answers. *)
Definition at91_clk_register_peripheral
    (name parent_name : option string) (id : Z)
    (kzalloc_ok : bool) (clk_hw_register_ret : Z)
  : clk_hw_ptr clk_peripheral.t :=
  if match name with None => true | Some _ => false end
     || match parent_name with None => true | Some _ => false end
     || (PERIPHERAL_ID_MAX <? id)
  then ERR_PTR (- EINVAL) else
  if negb kzalloc_ok then ERR_PTR (- ENOMEM) else
  let periph := clk_peripheral.mk id in
  if negb (clk_hw_register_ret =? 0) then ERR_PTR clk_hw_register_ret
  else HW periph.

(** *** The PMC status registers as bit arrays

    The register model of the specification's enable/is-enabled property:
    the two status words of the PMC; a bit written to an enable register sets
    the bit of the status word of its bank, a bit written to a disable
    register clears it, and reading a status register gives the word. *)
Record pmc_bits : Type := { pcsr : Z; pcsr1 : Z }.

Definition pmc_bits_write (reg val : Z) : State pmc_bits unit :=
  modify (fun m =>
    if reg =? AT91_PMC_PCER then
      {| pcsr := Z.lor (pcsr m) val; pcsr1 := pcsr1 m |}
    else if reg =? AT91_PMC_PCDR then
      {| pcsr := Z.ldiff (pcsr m) val; pcsr1 := pcsr1 m |}
    else if reg =? AT91_PMC_PCER1 then
      {| pcsr := pcsr m; pcsr1 := Z.lor (pcsr1 m) val |}
    else if reg =? AT91_PMC_PCDR1 then
      {| pcsr := pcsr m; pcsr1 := Z.ldiff (pcsr1 m) val |}
    else m).

Definition pmc_bits_read (reg : Z) : State pmc_bits Z :=
  gets (fun m =>
    if reg =? AT91_PMC_PCSR then pcsr m
    else if reg =? AT91_PMC_PCSR1 then pcsr1 m
    else 0).

Definition pmc_bits_update_bits (reg mask val : Z) : State pmc_bits unit :=
  old <- pmc_bits_read reg ;;
  pmc_bits_write reg (Z.lor (Z.ldiff old mask) (Z.land val mask)).

Definition pmc_bits_regmap : Regmap pmc_bits :=
  {| regmap_write := pmc_bits_write;
     regmap_read := pmc_bits_read;
     regmap_update_bits := pmc_bits_update_bits |}.

(** ** The indirectly addressed (SAM9X5) node *)

Section Sam9x5.

Context {R : Type} {rm : Regmap R}.

(** The state an operation of the node runs in: the node, the regmap it
    points to, the shared lock [pmc_pcr_lock] (held or not) and the rate the
    clock framework reports for the node's parent,
    [clk_hw_get_rate(clk_hw_get_parent_by_index(hw, 0))], which is [0] when
    the parent is missing or its rate is unknown. *)
Record world : Type := World {
  periph : clk_sam9x5_peripheral.t;
  regs : R;
  pmc_pcr_lock : bool;
  parent_hw_rate : Z
}.

Definition on_periph
    (f : clk_sam9x5_peripheral.t -> clk_sam9x5_peripheral.t) (w : world)
  : world :=
  World (f (periph w)) (regs w) (pmc_pcr_lock w) (parent_hw_rate w).

Definition on_regs {A : Type} (m : State R A) : State world A :=
  fun w =>
    let (a, r) := m (regs w) in
    (a, World (periph w) r (pmc_pcr_lock w) (parent_hw_rate w)).

Definition spin_lock_irqsave : State world unit :=
  modify (fun w => World (periph w) (regs w) true (parent_hw_rate w)).

Definition spin_unlock_irqrestore : State world unit :=
  modify (fun w => World (periph w) (regs w) false (parent_hw_rate w)).

Definition clk_hw_get_rate_parent : State world Z := gets parent_hw_rate.

(** The loop of [clk_sam9x5_peripheral_autodiv]; the result is [shift] when
    the loop is left. *)
Fixpoint autodiv_loop (turns : nat) (parent_rate max shift : Z) : Z :=
  match turns with
  | O => shift
  | S turns' =>
      if shift <? PERIPHERAL_MAX_SHIFT then
        if Z.shiftr parent_rate shift <=? max then shift
        else autodiv_loop turns' parent_rate max (shift + 1)
      else shift
  end.

(** The two assignments that end [clk_sam9x5_peripheral_autodiv]. *)
Definition autodiv_store (shift : Z) : State world unit :=
  modify (on_periph (clk_sam9x5_peripheral.set_auto_div false)) ;;
  modify (on_periph (clk_sam9x5_peripheral.set_div shift)).

Definition clk_sam9x5_peripheral_autodiv : State world unit :=
  p <- gets periph ;;
  let shift := 0 in
  if negb (clk_sam9x5_peripheral.auto_div p) then ret tt else
  let max := clk_range.max (clk_sam9x5_peripheral.range p) in
  if negb (max =? 0) then
    parent_rate <- clk_hw_get_rate_parent ;;
    if parent_rate =? 0 then ret tt else
    autodiv_store (autodiv_loop shift_turns parent_rate max shift)
  else autodiv_store shift.

(** [regmap_write(periph->regmap, periph->layout->offset,
    periph->id & periph->layout->pid_mask)]: the selection of the node's
    identifier that opens every register access. *)
Definition select_id (p : clk_sam9x5_peripheral.t) : State world unit :=
  let l := clk_sam9x5_peripheral.layout p in
  on_regs (regmap_write (clk_pcr_layout.offset l)
             (Z.land (clk_sam9x5_peripheral.id p) (clk_pcr_layout.pid_mask l))).

Definition clk_sam9x5_peripheral_enable : State world Z :=
  p <- gets periph ;;
  let l := clk_sam9x5_peripheral.layout p in
  if clk_sam9x5_peripheral.id p <? PERIPHERAL_ID_MIN then ret 0 else
  spin_lock_irqsave ;;
  select_id p ;;
  on_regs (regmap_update_bits (clk_pcr_layout.offset l)
             (Z.lor (Z.lor (clk_pcr_layout.div_mask l) (clk_pcr_layout.cmd l))
                    AT91_PMC_PCR_EN)
             (Z.lor (Z.lor (field_prep (clk_pcr_layout.div_mask l)
                                       (clk_sam9x5_peripheral.div p))
                           (clk_pcr_layout.cmd l))
                    AT91_PMC_PCR_EN)) ;;
  spin_unlock_irqrestore ;;
  ret 0.

Definition clk_sam9x5_peripheral_disable : State world unit :=
  p <- gets periph ;;
  let l := clk_sam9x5_peripheral.layout p in
  if clk_sam9x5_peripheral.id p <? PERIPHERAL_ID_MIN then ret tt else
  spin_lock_irqsave ;;
  select_id p ;;
  on_regs (regmap_update_bits (clk_pcr_layout.offset l)
             (Z.lor AT91_PMC_PCR_EN (clk_pcr_layout.cmd l))
             (clk_pcr_layout.cmd l)) ;;
  spin_unlock_irqrestore.

Definition clk_sam9x5_peripheral_is_enabled : State world Z :=
  p <- gets periph ;;
  let l := clk_sam9x5_peripheral.layout p in
  if clk_sam9x5_peripheral.id p <? PERIPHERAL_ID_MIN then ret 1 else
  spin_lock_irqsave ;;
  select_id p ;;
  status <- on_regs (regmap_read (clk_pcr_layout.offset l)) ;;
  spin_unlock_irqrestore ;;
  ret (if Z.land status AT91_PMC_PCR_EN =? 0 then 0 else 1).

(** The divider read back from the register is as wide as the layout's
    divider field (two bits in the layouts of the driver), so the final shift
    stays below the word size. *)
Definition clk_sam9x5_peripheral_recalc_rate (parent_rate : Z)
  : State world Z :=
  p <- gets periph ;;
  let l := clk_sam9x5_peripheral.layout p in
  if clk_sam9x5_peripheral.id p <? PERIPHERAL_ID_MIN then ret parent_rate else
  spin_lock_irqsave ;;
  select_id p ;;
  status <- on_regs (regmap_read (clk_pcr_layout.offset l)) ;;
  spin_unlock_irqrestore ;;
  (if negb (Z.land status AT91_PMC_PCR_EN =? 0) then
     modify (on_periph (clk_sam9x5_peripheral.set_div
                          (field_get (clk_pcr_layout.div_mask l) status))) ;;
     modify (on_periph (clk_sam9x5_peripheral.set_auto_div false))
   else clk_sam9x5_peripheral_autodiv) ;;
  p <- gets periph ;;
  ret (Z.shiftr parent_rate (clk_sam9x5_peripheral.div p)).

(** The first loop of [clk_sam9x5_peripheral_round_rate]; the result is
    [(shift, cur_rate)] when the loop is left. *)
Fixpoint round_rate_ceil_loop (turns : nat)
    (parent_rate max shift cur_rate : Z) : Z * Z :=
  match turns with
  | O => (shift, cur_rate)
  | S turns' =>
      if shift <=? PERIPHERAL_MAX_SHIFT then
        let cur_rate := Z.shiftr parent_rate shift in
        if cur_rate <=? max then (shift, cur_rate)
        else round_rate_ceil_loop turns' parent_rate max (shift + 1) cur_rate
      else (shift, cur_rate)
  end.

(** Its second loop; the result is [best_rate] when the loop is left. *)
Fixpoint round_rate_best_loop (turns : nat)
    (rate parent_rate shift best_rate best_diff : Z) : Z :=
  match turns with
  | O => best_rate
  | S turns' =>
      if shift <=? PERIPHERAL_MAX_SHIFT then
        let cur_rate := Z.shiftr parent_rate shift in
        let cur_diff :=
          if cur_rate <? rate then rate - cur_rate else cur_rate - rate in
        let (best_diff, best_rate) :=
          if cur_diff <? best_diff then (cur_diff, cur_rate)
          else (best_diff, best_rate) in
        if (best_diff =? 0) || (cur_rate <? rate) then best_rate
        else round_rate_best_loop turns' rate parent_rate (shift + 1)
               best_rate best_diff
      else best_rate
  end.

Definition clk_sam9x5_peripheral_round_rate (rate parent_rate : Z)
  : State world Z :=
  p <- gets periph ;;
  let shift := 0 in
  let cur_rate := parent_rate in
  let max := clk_range.max (clk_sam9x5_peripheral.range p) in
  if (clk_sam9x5_peripheral.id p <? PERIPHERAL_ID_MIN) || (max =? 0)
  then ret parent_rate else
  let (shift, cur_rate) :=
    if negb (max =? 0)
    then round_rate_ceil_loop shift_turns parent_rate max shift cur_rate
    else (shift, cur_rate) in
  if cur_rate <=? rate then ret cur_rate else
  let best_diff := cur_rate - rate in
  let best_rate := cur_rate in
  ret (round_rate_best_loop shift_turns rate parent_rate shift
         best_rate best_diff).

(** The loop of [clk_sam9x5_peripheral_set_rate]: the shift at which the
    body returns, or [None] when the loop runs to its end. *)
Fixpoint set_rate_loop (turns : nat) (rate parent_rate shift : Z)
  : option Z :=
  match turns with
  | O => None
  | S turns' =>
      if shift <=? PERIPHERAL_MAX_SHIFT then
        if Z.shiftr parent_rate shift =? rate then Some shift
        else set_rate_loop turns' rate parent_rate (shift + 1)
      else None
  end.

Definition clk_sam9x5_peripheral_set_rate (rate parent_rate : Z)
  : State world Z :=
  p <- gets periph ;;
  let max := clk_range.max (clk_sam9x5_peripheral.range p) in
  if (clk_sam9x5_peripheral.id p <? PERIPHERAL_ID_MIN) || (max =? 0) then
    if parent_rate =? rate then ret 0 else ret (- EINVAL)
  else
  if negb (max =? 0) && (max <? rate) then ret (- EINVAL) else
  match set_rate_loop shift_turns rate parent_rate 0 with
  | Some shift =>
      modify (on_periph (clk_sam9x5_peripheral.set_auto_div false)) ;;
      modify (on_periph (clk_sam9x5_peripheral.set_div shift)) ;;
      ret 0
  | None => ret (- EINVAL)
  end.

(** [at91_clk_register_sam9x5_peripheral].  [regmap] and [lock] are the
    objects the new node points to and [parent_rate] the rate the framework
    reports for its parent; the other arguments are as for the legacy node.
    On success the result is the state the new node lives in, after its first
    auto-division.  ([pmc_register_id] records the identifier for
    suspend/resume in pmc.c and does not touch the node.) *)
Definition at91_clk_register_sam9x5_peripheral
    (regmap : R) (lock : bool) (layout : clk_pcr_layout.t)
    (name parent_name : option string) (id : Z) (range : clk_range.t)
    (kzalloc_ok : bool) (clk_hw_register_ret : Z) (parent_rate : Z)
  : clk_hw_ptr world :=
  if match name with None => true | Some _ => false end
     || match parent_name with None => true | Some _ => false end
  then ERR_PTR (- EINVAL) else
  if negb kzalloc_ok then ERR_PTR (- ENOMEM) else
  let p :=
    clk_sam9x5_peripheral.mk range id 0 layout
      (negb (clk_pcr_layout.div_mask layout =? 0)) in
  if negb (clk_hw_register_ret =? 0) then ERR_PTR clk_hw_register_ret
  else HW (snd (clk_sam9x5_peripheral_autodiv
                  (World p regmap lock parent_rate))).

(** *** Histories of a node

    What can happen to a registered node: the clock framework calls one of
    its operations (or the driver resolves its divider), another user of the
    PMC changes the registers, or the rate of the parent changes. *)
Inductive sam9x5_event : Type :=
| Enable
| Disable
| IsEnabled
| RecalcRate (parent_rate : Z)
| RoundRate (rate parent_rate : Z)
| SetRate (rate parent_rate : Z)
| Autodiv
| RegsChange (f : R -> R)
| ParentRateChange (parent_rate : Z).

Definition run_event (e : sam9x5_event) : State world unit :=
  match e with
  | Enable => clk_sam9x5_peripheral_enable ;; ret tt
  | Disable => clk_sam9x5_peripheral_disable
  | IsEnabled => clk_sam9x5_peripheral_is_enabled ;; ret tt
  | RecalcRate parent_rate =>
      clk_sam9x5_peripheral_recalc_rate parent_rate ;; ret tt
  | RoundRate rate parent_rate =>
      clk_sam9x5_peripheral_round_rate rate parent_rate ;; ret tt
  | SetRate rate parent_rate =>
      clk_sam9x5_peripheral_set_rate rate parent_rate ;; ret tt
  | Autodiv => clk_sam9x5_peripheral_autodiv
  | RegsChange f => on_regs (modify f)
  | ParentRateChange parent_rate =>
      modify (fun w => World (periph w) (regs w) (pmc_pcr_lock w) parent_rate)
  end.

Fixpoint run_events (es : list sam9x5_event) : State world unit :=
  match es with
  | [] => ret tt
  | e :: es' => run_event e ;; run_events es'
  end.

End Sam9x5.

End Driver.

Arguments world R : clear implicits.
Arguments sam9x5_event R : clear implicits.

(** ** A header and a register file to run the driver on

    The properties below hold for every header and every register transport.
    To run the model, and to exhibit inputs, the following instances fill the
    interfaces in: the register map of the SAM9X5 PMC, and a model of its
    peripheral control register (PCR). *)

Fixpoint pos_ctz (p : positive) : Z :=
  match p with
  | xO q => 1 + pos_ctz q
  | _ => 0
  end.

(** [ffs]: the position, counted from one, of the lowest bit set; [0] for
    [0]. *)
Definition ffs (x : Z) : Z :=
  match x with
  | Zpos p => 1 + pos_ctz p
  | _ => 0
  end.

(** Modelled from the spec: at91_pmc.h and pmc.h are not under src/.  The two
    field macros follow section 4.2, "extract divider value from the divider
    field" for [field_get] and "set divider field (current divider value)"
    for [field_prep]: the bits under the mask, moved down to bit [0], and
    back.  The offsets and the enable bit are those of the SAM9X5 PMC. *)
Definition sam9x5_pmc_h : PmcHeader :=
  {| AT91_PMC_PCER := 16;
     AT91_PMC_PCDR := 20;
     AT91_PMC_PCSR := 24;
     AT91_PMC_PCER1 := 256;
     AT91_PMC_PCDR1 := 260;
     AT91_PMC_PCSR1 := 264;
     AT91_PMC_PCR_EN := Z.shiftl 1 28;
     field_get := fun mask reg => Z.shiftr (Z.land reg mask) (ffs mask - 1);
     field_prep := fun mask val => Z.land (Z.shiftl val (ffs mask - 1)) mask
  |}.

(** The PCR layout of the SAM9X5: register [0x10c], command bit [12], divider
    in bits [17:16], identifier in bits [5:0]. *)
Definition at91sam9x5_pcr_layout : clk_pcr_layout.t :=
  clk_pcr_layout.mk 268 (Z.shiftl 1 12) (Z.shiftl 3 16) 63.

(** The PCR: a write without the command bit selects a peripheral, a write
    with it also stores the divider and enable bits for the peripheral it
    names, and a read gives the identifier selected and what is stored for
    it. *)
Record pcr_hw : Type := PcrHw { pcr_pid : Z; pcr_cfg : Z -> Z }.

Definition pcr_write (reg val : Z) : State pcr_hw unit :=
  modify (fun h =>
    let l := at91sam9x5_pcr_layout in
    if reg =? clk_pcr_layout.offset l then
      let pid := Z.land val (clk_pcr_layout.pid_mask l) in
      if Z.land val (clk_pcr_layout.cmd l) =? 0 then PcrHw pid (pcr_cfg h)
      else
        PcrHw pid (fun i =>
          if i =? pid
          then Z.land val (Z.lor (clk_pcr_layout.div_mask l)
                                 (@AT91_PMC_PCR_EN sam9x5_pmc_h))
          else pcr_cfg h i)
    else h).

Definition pcr_read (reg : Z) : State pcr_hw Z :=
  gets (fun h =>
    if reg =? clk_pcr_layout.offset at91sam9x5_pcr_layout
    then Z.lor (pcr_pid h) (pcr_cfg h (pcr_pid h))
    else 0).

Definition pcr_update_bits (reg mask val : Z) : State pcr_hw unit :=
  old <- pcr_read reg ;;
  pcr_write reg (Z.lor (Z.ldiff old mask) (Z.land val mask)).

Definition pcr_regmap : Regmap pcr_hw :=
  {| regmap_write := pcr_write;
     regmap_read := pcr_read;
     regmap_update_bits := pcr_update_bits |}.

(** A PCR in which no peripheral clock is enabled. *)
Definition pcr_reset : pcr_hw := PcrHw 0 (fun _ => 0).

(** A node on the SAM9X5 layout in its state after [kzalloc] and the
    assignments of the registration function, with the registers at reset,
    the lock free and a parent running at [parent_rate]. *)
Definition sam9x5_world (id max parent_rate : Z) : world pcr_hw :=
  World
    (clk_sam9x5_peripheral.mk (clk_range.mk 0 max) id 0
       at91sam9x5_pcr_layout true)
    pcr_reset false parent_rate.

(** A PCR in which the clock of peripheral [id] is enabled with divider
    [div]. *)
Definition pcr_running (id div : Z) : pcr_hw :=
  PcrHw 0 (fun i =>
    if i =? id
    then Z.lor (@field_prep sam9x5_pmc_h
                  (clk_pcr_layout.div_mask at91sam9x5_pcr_layout) div)
               (@AT91_PMC_PCR_EN sam9x5_pmc_h)
    else 0).

(** The same node when its clock is already running with divider [div], as
    a boot loader may leave it. *)
Definition sam9x5_world_running (id max parent_rate div : Z)
  : world pcr_hw :=
  World
    (clk_sam9x5_peripheral.mk (clk_range.mk 0 max) id 0
       at91sam9x5_pcr_layout true)
    (pcr_running id div) false parent_rate.

(** ** Notions of the specification *)

(** [s] is the ceiling shift: the smallest shift of [0..3] whose candidate
    rate [parent_rate >> s] is within the maximum. *)
Definition ceiling_shift (parent_rate max s : Z) : Prop :=
  0 <= s <= PERIPHERAL_MAX_SHIFT /\
  Z.shiftr parent_rate s <= max /\
  forall k, 0 <= k < s -> max < Z.shiftr parent_rate k.

(** No shift of [0..3] brings the parent rate within the maximum. *)
Definition no_ceiling (parent_rate max : Z) : Prop :=
  forall k, 0 <= k <= PERIPHERAL_MAX_SHIFT -> max < Z.shiftr parent_rate k.

(** [s] is the first shift of [0..3] that divides the parent rate to exactly
    [rate]. *)
Definition exact_shift (rate parent_rate s : Z) : Prop :=
  0 <= s <= PERIPHERAL_MAX_SHIFT /\
  Z.shiftr parent_rate s = rate /\
  forall k, 0 <= k < s -> Z.shiftr parent_rate k <> rate.

(** [d] is the shift auto-division settles on: the ceiling shift, or the
    largest shift when there is no ceiling shift. *)
Definition clamped_ceiling_shift (parent_rate max d : Z) : Prop :=
  ceiling_shift parent_rate max d \/
  (no_ceiling parent_rate max /\ d = PERIPHERAL_MAX_SHIFT).

Section Notions.

Context {hdr : PmcHeader} {R : Type} {rm : Regmap R}.

(** The register read of [recalc_rate] and [is_enabled]: select the node's
    identifier under the lock and read the control register back. *)
Definition read_pcr : State (world R) Z :=
  p <- gets (@periph R) ;;
  spin_lock_irqsave ;;
  select_id p ;;
  status <-
    on_regs (regmap_read
               (clk_pcr_layout.offset (clk_sam9x5_peripheral.layout p))) ;;
  spin_unlock_irqrestore ;;
  ret status.

(** Two states of a node differ at most in the node's divider and
    auto-divider flag. *)
Definition same_but_divider (w w' : world R) : Prop :=
  regs w' = regs w /\
  pmc_pcr_lock w' = pmc_pcr_lock w /\
  parent_hw_rate w' = parent_hw_rate w /\
  clk_sam9x5_peripheral.range (periph w')
    = clk_sam9x5_peripheral.range (periph w) /\
  clk_sam9x5_peripheral.id (periph w') = clk_sam9x5_peripheral.id (periph w) /\
  clk_sam9x5_peripheral.layout (periph w')
    = clk_sam9x5_peripheral.layout (periph w).

(** A computation that leaves the node and the rate of its parent alone
    (it may use the registers and the lock). *)
Definition keeps_node {A : Type} (m : State (world R) A) : Prop :=
  forall w,
    periph (snd (m w)) = periph w /\
    parent_hw_rate (snd (m w)) = parent_hw_rate w.

End Notions.

(** ** Observing the register accesses

    A register transport that only records what it is asked: its state is the
    list of the accesses made so far, oldest first, and a read is answered by
    an arbitrary function of the accesses before it, which covers every
    deterministic hardware behind the registers. *)
Inductive access : Type :=
| Write (reg val : Z)
| Read (reg : Z)
| UpdateBits (reg mask val : Z).

Definition trace_regmap (answer : list access -> Z -> Z)
  : Regmap (list access) :=
  {| regmap_write := fun reg val => modify (fun t => t ++ [Write reg val]);
     regmap_read := fun reg t => (answer t reg, t ++ [Read reg]);
     regmap_update_bits :=
       fun reg mask val => modify (fun t => t ++ [UpdateBits reg mask val])
  |}.

(** The accesses come in pairs: a write of [sel] to the register [off], then
    a read or an update of the same register. *)
Fixpoint select_then_access (off sel : Z) (t : list access) : bool :=
  match t with
  | [] => true
  | Write reg val :: Read reg' :: t' =>
      (reg =? off) && (val =? sel) && (reg' =? off)
      && select_then_access off sel t'
  | Write reg val :: UpdateBits reg' _ _ :: t' =>
      (reg =? off) && (val =? sel) && (reg' =? off)
      && select_then_access off sel t'
  | _ => false
  end.

(** The [long] that an [unsigned long] of [bits] bits is returned as, which
    is what [clk_sam9x5_peripheral_round_rate] does with its result: the
    same word read in two's complement. *)
Definition long_of_ulong (bits x : Z) : Z :=
  if x <? 2 ^ (bits - 1) then x else x - 2 ^ bits.

Section Histories.

Context {hdr : PmcHeader} {R : Type} {rm : Regmap R}.

(** An event that is an operation of the node or a change of its parent's
    rate, and not a change of the registers from outside. *)
Definition is_operation (e : sam9x5_event R) : bool :=
  match e with
  | RegsChange _ => false
  | _ => true
  end.

(** The fields of a node that registration sets once. *)
Definition same_config (w w' : world R) : Prop :=
  clk_sam9x5_peripheral.range (periph w')
    = clk_sam9x5_peripheral.range (periph w) /\
  clk_sam9x5_peripheral.id (periph w') = clk_sam9x5_peripheral.id (periph w) /\
  clk_sam9x5_peripheral.layout (periph w')
    = clk_sam9x5_peripheral.layout (periph w).

(** The operations the clock framework can call on a legacy node. *)
Inductive legacy_event : Type :=
| LegacyEnable
| LegacyDisable
| LegacyIsEnabled.

Definition run_legacy_event (p : clk_peripheral.t) (e : legacy_event)
  : State R unit :=
  match e with
  | LegacyEnable => clk_peripheral_enable p ;; ret tt
  | LegacyDisable => clk_peripheral_disable p
  | LegacyIsEnabled => clk_peripheral_is_enabled p ;; ret tt
  end.

Fixpoint run_legacy_events (p : clk_peripheral.t) (es : list legacy_event)
  : State R unit :=
  match es with
  | [] => ret tt
  | e :: es' => run_legacy_event p e ;; run_legacy_events p es'
  end.

(** [at91_clk_register_sam9x5_peripheral] with the calls that
    [clk_hw_register] makes.  clk.c is not part of these sources; the clock
    framework may call the operations it is handed in [init.ops] on the new
    node before it returns (it asks recalc_rate for the rate of the new
    clock), and the parent's rate or the registers may change meanwhile.
    [callbacks] is what happens to the node inside [clk_hw_register], in
    order; with no callback this is [at91_clk_register_sam9x5_peripheral]
    above. *)
Definition at91_clk_register_sam9x5_peripheral_cb
    (regmap : R) (lock : bool) (layout : clk_pcr_layout.t)
    (name parent_name : option string) (id : Z) (range : clk_range.t)
    (kzalloc_ok : bool) (callbacks : list (sam9x5_event R))
    (clk_hw_register_ret : Z) (parent_rate : Z)
  : clk_hw_ptr (world R) :=
  if match name with None => true | Some _ => false end
     || match parent_name with None => true | Some _ => false end
  then ERR_PTR (- EINVAL) else
  if negb kzalloc_ok then ERR_PTR (- ENOMEM) else
  let p :=
    clk_sam9x5_peripheral.mk range id 0 layout
      (negb (clk_pcr_layout.div_mask layout =? 0)) in
  let w := snd (run_events callbacks (World p regmap lock parent_rate)) in
  if negb (clk_hw_register_ret =? 0) then ERR_PTR clk_hw_register_ret
  else HW (snd (clk_sam9x5_peripheral_autodiv w)).

(** An access to the first bank of the PMC for the bit of [id]. *)
Definition primary_bank_access (id : Z) (a : access) : bool :=
  match a with
  | Write reg val =>
      ((reg =? AT91_PMC_PCER) || (reg =? AT91_PMC_PCDR))
      && (val =? Z.shiftl 1 id)
  | Read reg => reg =? AT91_PMC_PCSR
  | UpdateBits _ _ _ => false
  end.

End Histories.

(** * Properties *)

Unset Implicit Arguments.

(** ** Shifts and candidates *)

Lemma shiftr_succ_le (x s : Z) :
  0 <= x -> 0 <= s -> Z.shiftr x (s + 1) <= Z.shiftr x s.
Proof.
  intros Hx Hs.
  rewrite <- Z.shiftr_shiftr by lia.
  rewrite (Z.shiftr_div_pow2 (Z.shiftr x s) 1) by lia.
  assert (0 <= Z.shiftr x s) by (apply Z.shiftr_nonneg; exact Hx).
  change (2 ^ 1) with 2.
  apply Z.div_le_upper_bound; lia.
Qed.

Lemma shiftr_antitone (x s k : Z) :
  0 <= x -> 0 <= s <= k -> Z.shiftr x k <= Z.shiftr x s.
Proof.
  intros Hx [Hs Hk].
  replace k with (s + (k - s)) by lia.
  assert (Hd : 0 <= k - s) by lia.
  revert Hd. generalize (k - s). intros d Hd.
  pattern d. apply natlike_ind; [ | | exact Hd ].
  - rewrite Z.add_0_r. lia.
  - intros n Hn IH. unfold Z.succ. rewrite Z.add_assoc.
    pose proof (shiftr_succ_le x (s + n) Hx ltac:(lia)). lia.
Qed.

(** Among the shifts below a bound, a decidable property that holds somewhere
    holds at a least shift. *)
Lemma least_shift (P : Z -> Prop) (P_dec : forall k, {P k} + {~ P k})
    (n : Z) :
  0 <= n ->
  (exists s0, 0 <= s0 < n /\ P s0 /\ forall k, 0 <= k < s0 -> ~ P k) \/
  (forall k, 0 <= k < n -> ~ P k).
Proof.
  intros Hn. pattern n. apply natlike_ind; [ | | exact Hn ].
  - right. intros k Hk. lia.
  - intros m Hm [(s0 & Hs0 & HP & Hmin) | Hnone].
    + left. exists s0. repeat split; try lia; assumption.
    + destruct (P_dec m) as [HP | HnP].
      * left. exists m. repeat split; try lia; assumption.
      * right. intros k Hk.
        destruct (Z.eq_dec k m) as [-> | Hne]; [ exact HnP | ].
        apply Hnone. lia.
Qed.

(** A rate that some shift of [0..3] brings within the maximum has a ceiling
    shift. *)
Lemma ceiling_shift_exists (parent_rate max s : Z) :
  0 <= s <= PERIPHERAL_MAX_SHIFT ->
  Z.shiftr parent_rate s <= max ->
  exists s0, ceiling_shift parent_rate max s0.
Proof.
  intros Hs Hle.
  destruct (least_shift (fun k => Z.shiftr parent_rate k <= max)
              (fun k => Z_le_dec (Z.shiftr parent_rate k) max)
              (PERIPHERAL_MAX_SHIFT + 1))
    as [(s0 & Hs0 & HP & Hmin) | Hnone].
  - unfold PERIPHERAL_MAX_SHIFT. lia.
  - exists s0. repeat split; try lia.
    intros k Hk. specialize (Hmin k Hk). lia.
  - exfalso. apply (Hnone s); [ lia | exact Hle ].
Qed.

Lemma ceiling_or_none (parent_rate max : Z) :
  (exists s0, ceiling_shift parent_rate max s0) \/
  no_ceiling parent_rate max.
Proof.
  destruct (least_shift (fun k => Z.shiftr parent_rate k <= max)
              (fun k => Z_le_dec (Z.shiftr parent_rate k) max)
              (PERIPHERAL_MAX_SHIFT + 1))
    as [(s0 & Hs0 & HP & Hmin) | Hnone].
  - unfold PERIPHERAL_MAX_SHIFT. lia.
  - left. exists s0. repeat split; try lia.
    intros k Hk. specialize (Hmin k Hk). lia.
  - right. intros k Hk. specialize (Hnone k ltac:(lia)). lia.
Qed.

Lemma exact_or_none (rate parent_rate : Z) :
  (exists s0, exact_shift rate parent_rate s0) \/
  (forall k, 0 <= k <= PERIPHERAL_MAX_SHIFT ->
             Z.shiftr parent_rate k <> rate).
Proof.
  destruct (least_shift (fun k => Z.shiftr parent_rate k = rate)
              (fun k => Z.eq_dec (Z.shiftr parent_rate k) rate)
              (PERIPHERAL_MAX_SHIFT + 1))
    as [(s0 & Hs0 & HP & Hmin) | Hnone].
  - unfold PERIPHERAL_MAX_SHIFT. lia.
  - left. exists s0. repeat split; try lia; auto.
  - right. intros k Hk. apply Hnone. lia.
Qed.

Lemma ceiling_shift_unique (parent_rate max s s' : Z) :
  ceiling_shift parent_rate max s -> ceiling_shift parent_rate max s' ->
  s = s'.
Proof.
  intros (Hs & Hle & Hmin) (Hs' & Hle' & Hmin').
  destruct (Z.lt_trichotomy s s') as [Hlt | [Heq | Hgt]]; [ | exact Heq | ].
  - specialize (Hmin' s ltac:(lia)). lia.
  - specialize (Hmin s' ltac:(lia)). lia.
Qed.

(** ** The loops *)

Lemma autodiv_loop_ceiling (parent_rate max s0 : Z) (turns : nat) :
  ceiling_shift parent_rate max s0 ->
  forall shift,
    0 <= shift <= s0 -> PERIPHERAL_MAX_SHIFT - shift < Z.of_nat turns ->
    autodiv_loop turns parent_rate max shift = s0.
Proof.
  intros (Hs0 & Hle & Hmin). unfold PERIPHERAL_MAX_SHIFT in *.
  induction turns as [|turns IH]; intros shift Hshift Hturns.
  - unfold PERIPHERAL_MAX_SHIFT in *. lia.
  - cbn [autodiv_loop]. unfold PERIPHERAL_MAX_SHIFT.
    destruct (Z.ltb_spec shift 3) as [Hlt|Hge]; [ | lia ].
    destruct (Z.leb_spec (Z.shiftr parent_rate shift) max) as [Hin|Hout].
    + destruct (Z.eq_dec shift s0) as [Heq|Hne]; [ exact Heq | ].
      specialize (Hmin shift ltac:(lia)). lia.
    + apply IH; [ | lia ].
      assert (shift <> s0) by (intros ->; lia). lia.
Qed.

Lemma autodiv_loop_no_ceiling (parent_rate max : Z) (turns : nat) :
  no_ceiling parent_rate max ->
  forall shift,
    0 <= shift <= PERIPHERAL_MAX_SHIFT ->
    PERIPHERAL_MAX_SHIFT - shift < Z.of_nat turns ->
    autodiv_loop turns parent_rate max shift = PERIPHERAL_MAX_SHIFT.
Proof.
  intros Hnone.
  induction turns as [|turns IH]; intros shift Hshift Hturns.
  - unfold PERIPHERAL_MAX_SHIFT in *. lia.
  - cbn [autodiv_loop].
    destruct (Z.ltb_spec shift PERIPHERAL_MAX_SHIFT) as [Hlt|Hge]; [ | lia ].
    specialize (Hnone shift ltac:(lia)).
    destruct (Z.leb_spec (Z.shiftr parent_rate shift) max) as [Hin|Hout];
      [ lia | ].
    apply IH; lia.
Qed.

Lemma round_rate_ceil_loop_ceiling (parent_rate max s0 : Z) (turns : nat) :
  ceiling_shift parent_rate max s0 ->
  forall shift cur_rate,
    0 <= shift <= s0 -> PERIPHERAL_MAX_SHIFT - shift < Z.of_nat turns ->
    round_rate_ceil_loop turns parent_rate max shift cur_rate
    = (s0, Z.shiftr parent_rate s0).
Proof.
  intros (Hs0 & Hle & Hmin).
  induction turns as [|turns IH]; intros shift cur_rate Hshift Hturns.
  - unfold PERIPHERAL_MAX_SHIFT in *. lia.
  - cbn [round_rate_ceil_loop].
    destruct (Z.leb_spec shift PERIPHERAL_MAX_SHIFT) as [Hin|Hout]; [ | lia ].
    destruct (Z.leb_spec (Z.shiftr parent_rate shift) max) as [Hfit|Hover].
    + destruct (Z.eq_dec shift s0) as [->|Hne]; [ reflexivity | ].
      specialize (Hmin shift ltac:(lia)). lia.
    + apply IH; [ | lia ].
      assert (shift <> s0) by (intros ->; lia). lia.
Qed.

Lemma round_rate_ceil_loop_no_ceiling (parent_rate max : Z) (turns : nat) :
  no_ceiling parent_rate max ->
  forall shift cur_rate,
    0 <= shift <= PERIPHERAL_MAX_SHIFT ->
    PERIPHERAL_MAX_SHIFT - shift < Z.of_nat turns ->
    round_rate_ceil_loop turns parent_rate max shift cur_rate
    = (PERIPHERAL_MAX_SHIFT + 1, Z.shiftr parent_rate PERIPHERAL_MAX_SHIFT).
Proof.
  intros Hnone.
  induction turns as [|turns IH]; intros shift cur_rate Hshift Hturns.
  - unfold PERIPHERAL_MAX_SHIFT in *. lia.
  - cbn [round_rate_ceil_loop].
    destruct (Z.leb_spec shift PERIPHERAL_MAX_SHIFT) as [Hin|Hout]; [ | lia ].
    specialize (Hnone shift ltac:(lia)).
    destruct (Z.leb_spec (Z.shiftr parent_rate shift) max) as [Hfit|Hover];
      [ lia | ].
    destruct (Z.eq_dec shift PERIPHERAL_MAX_SHIFT) as [->|Hne].
    + destruct turns as [|turns']; [ reflexivity | ].
      cbn [round_rate_ceil_loop].
      destruct (Z.leb_spec (PERIPHERAL_MAX_SHIFT + 1) PERIPHERAL_MAX_SHIFT);
        [ lia | reflexivity ].
    + apply IH; lia.
Qed.

(** The search loop, entered at [shift] with the best candidate so far above
    the target and no closer candidate behind: the result is that candidate
    or one that the loop reaches without passing an exact match or an
    undershoot, and no candidate of [shift..3] is closer to the target. *)
Lemma round_rate_best_loop_spec (rate parent_rate : Z) (turns : nat) :
  0 <= parent_rate ->
  forall shift best_rate best_diff,
    0 <= shift ->
    PERIPHERAL_MAX_SHIFT - shift < Z.of_nat turns ->
    rate < best_rate ->
    best_diff = best_rate - rate ->
    Z.shiftr parent_rate shift <= best_rate ->
    let r :=
      round_rate_best_loop turns rate parent_rate shift best_rate best_diff in
    (r = best_rate \/
     exists s, shift <= s <= PERIPHERAL_MAX_SHIFT /\
               r = Z.shiftr parent_rate s /\
               forall k, shift <= k < s -> rate < Z.shiftr parent_rate k) /\
    r <= best_rate /\
    Z.abs (r - rate) <= best_diff /\
    forall k, shift <= k <= PERIPHERAL_MAX_SHIFT ->
              Z.abs (r - rate) <= Z.abs (Z.shiftr parent_rate k - rate).
Proof.
  intros Hpr.
  induction turns as [|turns IH];
    intros shift best_rate best_diff Hshift Hturns Habove Hdiff Hbound.
  - cbn. split; [ left; reflexivity | ]. repeat split; lia.
  - cbn [round_rate_best_loop].
    destruct (Z.leb_spec shift PERIPHERAL_MAX_SHIFT) as [Hin|Hout].
    2:{ cbn zeta. split; [ left; reflexivity | ]. repeat split; lia. }
    set (cur_rate := Z.shiftr parent_rate shift) in *.
    assert (Hrest : forall k, shift <= k ->
                      Z.shiftr parent_rate k <= cur_rate).
    { intros k Hk. apply shiftr_antitone; lia. }
    destruct (Z.ltb_spec cur_rate rate) as [Hunder|Hnotunder].
    + (* the candidate undershoots: the loop stops here *)
      destruct (Z.ltb_spec (rate - cur_rate) best_diff) as [Hcloser|Hfarther];
        rewrite orb_true_r; cbn zeta.
      * split; [ right; exists shift; repeat split; lia | ].
        repeat split; try lia.
        intros k Hk. specialize (Hrest k ltac:(lia)). lia.
      * split; [ left; reflexivity | ].
        repeat split; try lia.
        intros k Hk. specialize (Hrest k ltac:(lia)). lia.
    + destruct (Z.ltb_spec (cur_rate - rate) best_diff) as [Hcloser|Hfarther];
        rewrite orb_false_r.
      * destruct (Z.eqb_spec (cur_rate - rate) 0) as [Hexact|Hinexact];
          cbn zeta.
        -- (* an exact match: the loop stops here *)
           split; [ right; exists shift; repeat split; lia | ].
           repeat split; try lia.
        -- specialize (IH (shift + 1) cur_rate (cur_rate - rate)
                         ltac:(lia) ltac:(lia) ltac:(lia) eq_refl
                         (Hrest (shift + 1) ltac:(lia))).
           cbn zeta in IH. destruct IH as (Hwhere & Hle & Hclose & Hmin).
           split.
           { right. destruct Hwhere as [Hr | (s & Hs & Hr & Hpath)].
             - exists shift. repeat split; lia.
             - exists s. repeat split; try lia.
               intros k Hk. destruct (Z.eq_dec k shift) as [->|Hne].
               + fold cur_rate. lia.
               + apply Hpath. lia. }
           repeat split; try lia.
           intros k Hk. destruct (Z.eq_dec k shift) as [->|Hne].
           ++ fold cur_rate. lia.
           ++ apply Hmin. lia.
      * destruct (Z.eqb_spec best_diff 0) as [Hzero|Hnonzero]; [ lia | ].
        cbn zeta.
        assert (Hsame : cur_rate = best_rate) by lia.
        specialize (IH (shift + 1) best_rate best_diff
                       ltac:(lia) ltac:(lia) ltac:(lia) Hdiff
                       ltac:(rewrite <- Hsame; apply Hrest; lia)).
        cbn zeta in IH. destruct IH as (Hwhere & Hle & Hclose & Hmin).
        split.
        { destruct Hwhere as [Hr | (s & Hs & Hr & Hpath)].
          - left. exact Hr.
          - right. exists s. repeat split; try lia.
            intros k Hk. destruct (Z.eq_dec k shift) as [->|Hne].
            + fold cur_rate. lia.
            + apply Hpath. lia. }
        repeat split; try lia.
        intros k Hk. destruct (Z.eq_dec k shift) as [->|Hne].
        -- fold cur_rate. lia.
        -- apply Hmin. lia.
Qed.

Lemma set_rate_loop_exact (rate parent_rate s0 : Z) (turns : nat) :
  exact_shift rate parent_rate s0 ->
  forall shift,
    0 <= shift <= s0 -> PERIPHERAL_MAX_SHIFT - shift < Z.of_nat turns ->
    set_rate_loop turns rate parent_rate shift = Some s0.
Proof.
  intros (Hs0 & Heq & Hmin).
  induction turns as [|turns IH]; intros shift Hshift Hturns.
  - unfold PERIPHERAL_MAX_SHIFT in *. lia.
  - cbn [set_rate_loop].
    destruct (Z.leb_spec shift PERIPHERAL_MAX_SHIFT) as [Hin|Hout]; [ | lia ].
    destruct (Z.eqb_spec (Z.shiftr parent_rate shift) rate) as [Hhit|Hmiss].
    + destruct (Z.eq_dec shift s0) as [->|Hne]; [ reflexivity | ].
      exfalso. apply (Hmin shift); [ lia | exact Hhit ].
    + apply IH; [ | lia ].
      assert (shift <> s0) by (intros ->; contradiction). lia.
Qed.

Lemma set_rate_loop_none (rate parent_rate : Z) (turns : nat) :
  (forall k, 0 <= k <= PERIPHERAL_MAX_SHIFT ->
             Z.shiftr parent_rate k <> rate) ->
  forall shift,
    0 <= shift -> set_rate_loop turns rate parent_rate shift = None.
Proof.
  intros Hnone.
  induction turns as [|turns IH]; intros shift Hshift; [ reflexivity | ].
  cbn [set_rate_loop].
  destruct (Z.leb_spec shift PERIPHERAL_MAX_SHIFT) as [Hin|Hout];
    [ | reflexivity ].
  destruct (Z.eqb_spec (Z.shiftr parent_rate shift) rate) as [Hhit|Hmiss].
  - exfalso. apply (Hnone shift); [ lia | exact Hhit ].
  - apply IH. lia.
Qed.

(** The constant of [shift_turns] covers every loop entered at a shift that
    is not negative. *)
Lemma shift_turns_enough (shift : Z) :
  0 <= shift -> PERIPHERAL_MAX_SHIFT - shift < Z.of_nat shift_turns.
Proof. unfold PERIPHERAL_MAX_SHIFT, shift_turns. lia. Qed.

(** Unfolds the state monad in the goal. *)
Ltac run_state :=
  unfold bind, ret, gets, modify, on_periph, on_regs; cbn beta iota zeta.

Section Properties.

Context {hdr : PmcHeader} {R : Type} {rm : Regmap R}.

Implicit Types (w : world R) (rate parent_rate : Z).

Local Abbreviation id_of w := (clk_sam9x5_peripheral.id (periph w)).
Local Abbreviation max_of w :=
  (clk_range.max (clk_sam9x5_peripheral.range (periph w))).
Local Abbreviation div_of w := (clk_sam9x5_peripheral.div (periph w)).
Local Abbreviation auto_div_of w :=
  (clk_sam9x5_peripheral.auto_div (periph w)).

(** ** round_rate *)

Lemma round_rate_no_divider w rate parent_rate :
  id_of w < PERIPHERAL_ID_MIN \/ max_of w = 0 ->
  clk_sam9x5_peripheral_round_rate rate parent_rate w = (parent_rate, w).
Proof.
  intros Hno. unfold clk_sam9x5_peripheral_round_rate. run_state.
  destruct (Z.ltb_spec (id_of w) PERIPHERAL_ID_MIN) as [Hlt|Hge];
    [ reflexivity | ].
  destruct (Z.eqb_spec (max_of w) 0) as [Hz|Hnz]; [ reflexivity | lia ].
Qed.

Lemma round_rate_divider w rate parent_rate :
  PERIPHERAL_ID_MIN <= id_of w -> max_of w <> 0 ->
  clk_sam9x5_peripheral_round_rate rate parent_rate w
  = (let (shift, cur_rate) :=
       round_rate_ceil_loop shift_turns parent_rate (max_of w) 0 parent_rate
     in
     if cur_rate <=? rate then cur_rate
     else round_rate_best_loop shift_turns rate parent_rate shift
            cur_rate (cur_rate - rate),
     w).
Proof.
  intros Hid Hmax. unfold clk_sam9x5_peripheral_round_rate. run_state.
  destruct (Z.ltb_spec (id_of w) PERIPHERAL_ID_MIN) as [Hlt|Hge]; [ lia | ].
  destruct (Z.eqb_spec (max_of w) 0) as [Hz|Hnz]; [ contradiction | ].
  cbn [orb negb].
  destruct (round_rate_ceil_loop shift_turns parent_rate (max_of w) 0
              parent_rate) as [shift cur_rate].
  destruct (cur_rate <=? rate); reflexivity.
Qed.

(** round_rate has no effect on the node, the registers or the lock. *)
Lemma round_rate_pure w rate parent_rate :
  snd (clk_sam9x5_peripheral_round_rate rate parent_rate w) = w.
Proof.
  destruct (Z_lt_le_dec (id_of w) PERIPHERAL_ID_MIN) as [Hlt|Hge].
  { rewrite round_rate_no_divider by (left; exact Hlt). reflexivity. }
  destruct (Z.eq_dec (max_of w) 0) as [Hz|Hnz].
  { rewrite round_rate_no_divider by (right; exact Hz). reflexivity. }
  rewrite round_rate_divider by assumption. reflexivity.
Qed.

(** C1 (as amended).  For a node with id >= 2 and a nonzero range maximum,
    and for every target and parent rate: when the parent rate divided by
    eight (the largest divider) is within the maximum, round_rate returns a
    rate that does not exceed the maximum; when it is not, round_rate returns
    the parent rate divided by eight, whatever the target. *)
Theorem round_rate_within_max w rate parent_rate :
  PERIPHERAL_ID_MIN <= id_of w ->
  max_of w <> 0 ->
  0 <= parent_rate ->
  let r := fst (clk_sam9x5_peripheral_round_rate rate parent_rate w) in
  (Z.shiftr parent_rate PERIPHERAL_MAX_SHIFT <= max_of w -> r <= max_of w) /\
  (max_of w < Z.shiftr parent_rate PERIPHERAL_MAX_SHIFT ->
   r = Z.shiftr parent_rate PERIPHERAL_MAX_SHIFT).
Proof.
  intros Hid Hmax Hpr. rewrite round_rate_divider by assumption.
  cbn [fst]. split.
  - intros Hfits.
    destruct (ceiling_shift_exists parent_rate (max_of w)
                PERIPHERAL_MAX_SHIFT ltac:(unfold PERIPHERAL_MAX_SHIFT; lia)
                Hfits) as [s0 Hceil].
    rewrite (round_rate_ceil_loop_ceiling _ _ _ shift_turns Hceil)
      by (destruct Hceil; try apply shift_turns_enough; lia).
    destruct Hceil as (Hs0 & Hle & _).
    destruct (Z.leb_spec (Z.shiftr parent_rate s0) rate) as [Hret|Hsearch];
      [ exact Hle | ].
    pose proof (round_rate_best_loop_spec rate parent_rate shift_turns Hpr
                  s0 (Z.shiftr parent_rate s0) _
                  ltac:(lia) (shift_turns_enough s0 ltac:(lia)) Hsearch
                  eq_refl ltac:(lia)) as (_ & Hbest & _).
    lia.
  - intros Hover.
    assert (Hnone : no_ceiling parent_rate (max_of w)).
    { intros k Hk.
      pose proof (shiftr_antitone parent_rate k PERIPHERAL_MAX_SHIFT Hpr Hk).
      lia. }
    rewrite (round_rate_ceil_loop_no_ceiling _ _ shift_turns Hnone)
      by (try apply shift_turns_enough; unfold PERIPHERAL_MAX_SHIFT; lia).
    destruct (Z.shiftr parent_rate PERIPHERAL_MAX_SHIFT <=? rate);
      reflexivity.
Qed.

(** C2 (as amended).  For a node with id >= 2 and a nonzero range maximum.
    When some shift of 0..3 brings the parent rate within the maximum, let
    the ceiling candidate be the candidate [parent_rate >> s0] at the
    smallest such shift [s0]: round_rate returns the ceiling candidate when
    the target is at least that; otherwise it returns the candidate at a
    shift [s] of [s0..3] that no candidate of [s0..3] beats in absolute
    difference to the target, and no candidate before [s] is an exact match
    or below the target (the search stops at the first of these).  When no
    shift of 0..3 brings the parent rate within the maximum, round_rate
    returns [parent_rate >> 3] for every target.  With parent rate
    133000000, maximum 83000000 and target 70000000 the result is
    66500000. *)
Theorem round_rate_search w rate parent_rate :
  PERIPHERAL_ID_MIN <= id_of w ->
  max_of w <> 0 ->
  0 <= parent_rate ->
  let r := fst (clk_sam9x5_peripheral_round_rate rate parent_rate w) in
  (forall s0,
     ceiling_shift parent_rate (max_of w) s0 ->
     (Z.shiftr parent_rate s0 <= rate -> r = Z.shiftr parent_rate s0) /\
     (rate < Z.shiftr parent_rate s0 ->
      exists s,
        s0 <= s <= PERIPHERAL_MAX_SHIFT /\
        r = Z.shiftr parent_rate s /\
        (forall k, s0 <= k < s -> rate < Z.shiftr parent_rate k) /\
        (forall k, s0 <= k <= PERIPHERAL_MAX_SHIFT ->
           Z.abs (r - rate) <= Z.abs (Z.shiftr parent_rate k - rate)))) /\
  (no_ceiling parent_rate (max_of w) ->
   r = Z.shiftr parent_rate PERIPHERAL_MAX_SHIFT) /\
  (parent_rate = 133000000 -> max_of w = 83000000 -> rate = 70000000 ->
   r = 66500000).
Proof.
  intros Hid Hmax Hpr. cbn zeta.
  split; [ | split ].
  - intros s0 Hceil. split.
    + intros Hret. rewrite round_rate_divider by assumption. cbn [fst].
      rewrite (round_rate_ceil_loop_ceiling _ _ _ shift_turns Hceil)
        by (destruct Hceil; try apply shift_turns_enough; lia).
      destruct (Z.leb_spec (Z.shiftr parent_rate s0) rate);
        [ reflexivity | lia ].
    + intros Hsearch. rewrite round_rate_divider by assumption. cbn [fst].
      rewrite (round_rate_ceil_loop_ceiling _ _ _ shift_turns Hceil)
        by (destruct Hceil; try apply shift_turns_enough; lia).
      destruct Hceil as (Hs0 & Hle & _).
      destruct (Z.leb_spec (Z.shiftr parent_rate s0) rate); [ lia | ].
      pose proof (round_rate_best_loop_spec rate parent_rate shift_turns Hpr
                    s0 (Z.shiftr parent_rate s0) _
                    ltac:(lia) (shift_turns_enough s0 ltac:(lia)) Hsearch
                    eq_refl ltac:(lia)) as (Hwhere & _ & _ & Hmin).
      cbn zeta in Hwhere, Hmin.
      destruct Hwhere as [Hr | (s & Hs & Hr & Hpath)].
      * exists s0. repeat split; try lia; assumption.
      * exists s. repeat split; try lia; assumption.
  - intros Hnone. rewrite round_rate_divider by assumption. cbn [fst].
    rewrite (round_rate_ceil_loop_no_ceiling _ _ shift_turns Hnone)
      by (try apply shift_turns_enough; unfold PERIPHERAL_MAX_SHIFT; lia).
    destruct (Z.shiftr parent_rate PERIPHERAL_MAX_SHIFT <=? rate);
      reflexivity.
  - intros -> Hm ->. rewrite round_rate_divider by assumption.
    rewrite Hm. reflexivity.
Qed.

(** ** set_rate *)

Lemma set_rate_no_divider w rate parent_rate :
  id_of w < PERIPHERAL_ID_MIN \/ max_of w = 0 ->
  clk_sam9x5_peripheral_set_rate rate parent_rate w
  = (if parent_rate =? rate then 0 else - EINVAL, w).
Proof.
  intros Hno. unfold clk_sam9x5_peripheral_set_rate. run_state.
  assert (Hguard : (id_of w <? PERIPHERAL_ID_MIN) || (max_of w =? 0) = true).
  { apply orb_true_iff. destruct Hno as [Hlt|Hz].
    - left. apply Z.ltb_lt. exact Hlt.
    - right. apply Z.eqb_eq. exact Hz. }
  rewrite Hguard. destruct (parent_rate =? rate); reflexivity.
Qed.

Lemma set_rate_divider w rate parent_rate :
  PERIPHERAL_ID_MIN <= id_of w -> max_of w <> 0 ->
  clk_sam9x5_peripheral_set_rate rate parent_rate w
  = if max_of w <? rate then (- EINVAL, w) else
    match set_rate_loop shift_turns rate parent_rate 0 with
    | Some shift =>
        (0, on_periph (clk_sam9x5_peripheral.set_div shift)
              (on_periph (clk_sam9x5_peripheral.set_auto_div false) w))
    | None => (- EINVAL, w)
    end.
Proof.
  intros Hid Hmax. unfold clk_sam9x5_peripheral_set_rate. run_state.
  destruct (Z.ltb_spec (id_of w) PERIPHERAL_ID_MIN) as [Hlt|Hge]; [ lia | ].
  destruct (Z.eqb_spec (max_of w) 0) as [Hz|Hnz]; [ contradiction | ].
  cbn [orb negb andb].
  destruct (max_of w <? rate); [ reflexivity | ].
  destruct (set_rate_loop shift_turns rate parent_rate 0); reflexivity.
Qed.

(** What set_rate does on a node with a divider, by the first exact shift. *)
Lemma set_rate_divider_cases w rate parent_rate :
  PERIPHERAL_ID_MIN <= id_of w -> max_of w <> 0 ->
  (max_of w < rate /\
   clk_sam9x5_peripheral_set_rate rate parent_rate w = (- EINVAL, w)) \/
  (rate <= max_of w /\
   (forall k, 0 <= k <= PERIPHERAL_MAX_SHIFT ->
              Z.shiftr parent_rate k <> rate) /\
   clk_sam9x5_peripheral_set_rate rate parent_rate w = (- EINVAL, w)) \/
  (rate <= max_of w /\
   exists s, exact_shift rate parent_rate s /\
     clk_sam9x5_peripheral_set_rate rate parent_rate w
     = (0, on_periph (clk_sam9x5_peripheral.set_div s)
             (on_periph (clk_sam9x5_peripheral.set_auto_div false) w))).
Proof.
  intros Hid Hmax. rewrite set_rate_divider by assumption.
  destruct (Z.ltb_spec (max_of w) rate) as [Hover|Hin].
  { left. split; [ exact Hover | reflexivity ]. }
  right. destruct (exact_or_none rate parent_rate) as [(s & Hs) | Hnone].
  - right. split; [ exact Hin | ]. exists s. split; [ exact Hs | ].
    rewrite (set_rate_loop_exact _ _ _ shift_turns Hs)
      by (destruct Hs; try apply shift_turns_enough; lia).
    reflexivity.
  - left. split; [ exact Hin | ]. split; [ exact Hnone | ].
    rewrite (set_rate_loop_none _ _ shift_turns Hnone) by lia.
    reflexivity.
Qed.

(** C3 (as amended).  set_rate succeeds exactly when either the node has no
    divider to choose (id < 2 or no range maximum) and the requested rate is
    the parent rate, or the node has id >= 2 and a range maximum, the
    requested rate does not exceed the maximum and the parent rate shifted
    right by some shift of 0..3 is exactly the requested rate; in every other
    case it fails with -EINVAL. *)
Theorem set_rate_succeeds_iff w rate parent_rate :
  let r := fst (clk_sam9x5_peripheral_set_rate rate parent_rate w) in
  (r = 0 <->
   ((id_of w < PERIPHERAL_ID_MIN \/ max_of w = 0) /\ rate = parent_rate) \/
   (PERIPHERAL_ID_MIN <= id_of w /\ max_of w <> 0 /\ rate <= max_of w /\
    exists s, 0 <= s <= PERIPHERAL_MAX_SHIFT /\
              Z.shiftr parent_rate s = rate)) /\
  (r <> 0 -> r = - EINVAL).
Proof.
  cbn zeta.
  destruct (Z_lt_le_dec (id_of w) PERIPHERAL_ID_MIN) as [Hlt|Hge];
    [ | destruct (Z.eq_dec (max_of w) 0) as [Hz|Hnz] ].
  1,2: rewrite set_rate_no_divider by (auto; fail); cbn [fst];
       destruct (Z.eqb_spec parent_rate rate) as [Heq|Hne];
       (split; [ split | ]);
       [ intros _; left; split; [ auto | congruence ]
       | intros _; reflexivity
       | intros H; exfalso; apply H; reflexivity
       | unfold EINVAL; intros H; discriminate H
       | intros [[_ H] | (H1 & H2 & _)]; [ congruence | lia ]
       | intros _; reflexivity ].
  destruct (set_rate_divider_cases w rate parent_rate Hge Hnz)
    as [(Hover & ->) | [(Hin & Hnone & ->) | (Hin & s & Hs & ->)]];
    cbn [fst]; (split; [ split | ]).
  - unfold EINVAL. intros H; discriminate H.
  - intros [[[H|H] _] | (_ & _ & H & _)]; lia.
  - intros _; reflexivity.
  - unfold EINVAL. intros H; discriminate H.
  - intros [[[H|H] _] | (_ & _ & _ & k & Hk & Heq)]; try lia.
    exfalso. exact (Hnone k Hk Heq).
  - intros _; reflexivity.
  - intros _. right. repeat split; try assumption.
    destruct Hs as (Hs & Heq & _). exists s. split; assumption.
  - intros _; reflexivity.
  - intros H; exfalso; apply H; reflexivity.
Qed.

(** C4.  When id < 2 or no range maximum is configured, set_rate succeeds
    exactly when the target is the parent rate and fails with -EINVAL
    otherwise.  When id >= 2 and a range maximum is configured, set_rate
    fails with -EINVAL if the target exceeds the maximum; otherwise it
    succeeds exactly when the parent rate shifted right by some shift of 0..3
    is the target and fails with -EINVAL when none is, and on success the
    divider is the shift of the match (the first one) and the auto-divider
    flag is cleared. *)
Theorem set_rate_cases w rate parent_rate :
  let r := fst (clk_sam9x5_peripheral_set_rate rate parent_rate w) in
  let w' := snd (clk_sam9x5_peripheral_set_rate rate parent_rate w) in
  (id_of w < PERIPHERAL_ID_MIN \/ max_of w = 0 ->
   (r = 0 <-> rate = parent_rate) /\ (r <> 0 -> r = - EINVAL)) /\
  (PERIPHERAL_ID_MIN <= id_of w /\ max_of w <> 0 ->
   (max_of w < rate -> r = - EINVAL) /\
   (rate <= max_of w ->
    (r = 0 <-> exists s, 0 <= s <= PERIPHERAL_MAX_SHIFT /\
                         Z.shiftr parent_rate s = rate) /\
    (r <> 0 -> r = - EINVAL) /\
    (r = 0 -> exact_shift rate parent_rate (div_of w') /\
              auto_div_of w' = false))).
Proof.
  cbn zeta. split.
  - intros Hno. rewrite set_rate_no_divider by exact Hno. cbn [fst].
    destruct (Z.eqb_spec parent_rate rate) as [Heq|Hne]; split.
    + split; congruence.
    + intros H; exfalso; apply H; reflexivity.
    + split; [ unfold EINVAL; intros H; discriminate H | congruence ].
    + intros _; reflexivity.
  - intros [Hid Hmax].
    destruct (set_rate_divider_cases w rate parent_rate Hid Hmax)
      as [(Hover & ->) | [(Hin & Hnone & ->) | (Hin & s & Hs & ->)]];
      cbn [fst snd]; (split; [ | intros Hle; split; [ | split ] ]).
    + intros _; reflexivity.
    + lia.
    + lia.
    + lia.
    + intros _; reflexivity.
    + split; [ unfold EINVAL; intros H; discriminate H | ].
      intros (k & Hk & Heq). exfalso. exact (Hnone k Hk Heq).
    + intros _; reflexivity.
    + unfold EINVAL. intros H; discriminate H.
    + lia.
    + split; [ | reflexivity ]. intros _.
      destruct Hs as (Hs & Heq & _). exists s. split; assumption.
    + intros H; exfalso; apply H; reflexivity.
    + intros _. split; [ exact Hs | reflexivity ].
Qed.

(** C10.  set_rate touches no register: for every register transport, the
    state of the registers is the same after the call as before it, and so
    are the lock, the parent's rate and the node's range, identifier and
    layout; only the divider and the auto-divider flag can differ, and when
    the call fails with -EINVAL (or with anything but 0) nothing differs. *)
Theorem set_rate_frame w rate parent_rate :
  let r := fst (clk_sam9x5_peripheral_set_rate rate parent_rate w) in
  let w' := snd (clk_sam9x5_peripheral_set_rate rate parent_rate w) in
  same_but_divider w w' /\ (r = - EINVAL -> w' = w) /\ (r <> 0 -> w' = w).
Proof.
  cbn zeta.
  assert (Hsame : same_but_divider w w) by (repeat split).
  destruct (Z_lt_le_dec (id_of w) PERIPHERAL_ID_MIN) as [Hlt|Hge];
    [ | destruct (Z.eq_dec (max_of w) 0) as [Hz|Hnz] ].
  1,2: rewrite set_rate_no_divider by (auto; fail); cbn [fst snd];
       repeat split; reflexivity.
  destruct (set_rate_divider_cases w rate parent_rate Hge Hnz)
    as [(Hover & ->) | [(Hin & Hnone & ->) | (Hin & s & Hs & ->)]];
    cbn [fst snd].
  - repeat split; reflexivity.
  - repeat split; reflexivity.
  - split; [ repeat split | split ].
    + unfold EINVAL. intros H; discriminate H.
    + intros H; exfalso; apply H; reflexivity.
Qed.

(** ** Auto-division *)

Lemma autodiv_cleared w :
  auto_div_of w = false -> clk_sam9x5_peripheral_autodiv w = (tt, w).
Proof.
  intros Hoff. unfold clk_sam9x5_peripheral_autodiv. run_state.
  rewrite Hoff. reflexivity.
Qed.

Lemma autodiv_no_parent_rate w :
  auto_div_of w = true -> max_of w <> 0 -> parent_hw_rate w = 0 ->
  clk_sam9x5_peripheral_autodiv w = (tt, w).
Proof.
  intros Hon Hmax Hzero.
  unfold clk_sam9x5_peripheral_autodiv, clk_hw_get_rate_parent. run_state.
  rewrite Hon. cbn [negb].
  destruct (Z.eqb_spec (max_of w) 0) as [Hz|_]; [ contradiction | ].
  cbn [negb]. rewrite Hzero. reflexivity.
Qed.

Lemma autodiv_resolves w :
  auto_div_of w = true -> max_of w <> 0 -> parent_hw_rate w <> 0 ->
  clk_sam9x5_peripheral_autodiv w
  = (tt, on_periph
           (clk_sam9x5_peripheral.set_div
              (autodiv_loop shift_turns (parent_hw_rate w) (max_of w) 0))
           (on_periph (clk_sam9x5_peripheral.set_auto_div false) w)).
Proof.
  intros Hon Hmax Hrate.
  unfold clk_sam9x5_peripheral_autodiv, clk_hw_get_rate_parent,
    autodiv_store.
  run_state. rewrite Hon. cbn [negb].
  destruct (Z.eqb_spec (max_of w) 0) as [Hz|_]; [ contradiction | ].
  cbn [negb].
  destruct (Z.eqb_spec (parent_hw_rate w) 0) as [Hz|_]; [ contradiction | ].
  reflexivity.
Qed.

Lemma autodiv_unranged w :
  auto_div_of w = true -> max_of w = 0 ->
  clk_sam9x5_peripheral_autodiv w
  = (tt, on_periph (clk_sam9x5_peripheral.set_div 0)
           (on_periph (clk_sam9x5_peripheral.set_auto_div false) w)).
Proof.
  intros Hon Hmax.
  unfold clk_sam9x5_peripheral_autodiv, autodiv_store. run_state.
  rewrite Hon, Hmax. reflexivity.
Qed.

Lemma autodiv_loop_clamped (parent_rate max : Z) :
  clamped_ceiling_shift parent_rate max
    (autodiv_loop shift_turns parent_rate max 0).
Proof.
  destruct (ceiling_or_none parent_rate max) as [(s0 & Hceil) | Hnone].
  - left.
    rewrite (autodiv_loop_ceiling _ _ _ shift_turns Hceil)
      by (destruct Hceil; try apply shift_turns_enough; lia).
    exact Hceil.
  - right. split; [ exact Hnone | ].
    apply autodiv_loop_no_ceiling;
      [ exact Hnone | unfold PERIPHERAL_MAX_SHIFT; lia
      | apply shift_turns_enough; lia ].
Qed.

(** Auto-division never sets the flag. *)
Lemma autodiv_keeps_cleared w :
  auto_div_of w = false ->
  auto_div_of (snd (clk_sam9x5_peripheral_autodiv w)) = false.
Proof. intros Hoff. rewrite autodiv_cleared by exact Hoff. exact Hoff. Qed.

(** C6.  Auto-division on a node whose flag is set and whose range has a
    maximum.  If the parent rate is zero the call changes nothing: the flag
    stays set and the divider is as before; once the parent has a nonzero
    rate the next call resolves the division, and a call after that leaves
    the node as the resolution made it, whatever the parent rate then is.
    If the parent rate is not zero the call clears the flag and stores as
    divider the smallest shift of 0..3 that brings the parent rate within the
    maximum, or 3 if no shift does; nothing else changes. *)
Theorem autodiv_resolution w :
  auto_div_of w = true ->
  max_of w <> 0 ->
  (parent_hw_rate w = 0 ->
   snd (clk_sam9x5_peripheral_autodiv w) = w /\
   forall parent_rate, parent_rate <> 0 ->
     let w1 :=
       snd (run_events [Autodiv; ParentRateChange parent_rate; Autodiv] w) in
     auto_div_of w1 = false /\
     clamped_ceiling_shift parent_rate (max_of w) (div_of w1) /\
     forall parent_rate',
       periph (snd (run_events [ParentRateChange parent_rate'; Autodiv] w1))
       = periph w1) /\
  (parent_hw_rate w <> 0 ->
   let w' := snd (clk_sam9x5_peripheral_autodiv w) in
   auto_div_of w' = false /\
   clamped_ceiling_shift (parent_hw_rate w) (max_of w) (div_of w') /\
   same_but_divider w w').
Proof.
  intros Hon Hmax. split.
  - intros Hzero.
    rewrite (autodiv_no_parent_rate w Hon Hmax Hzero). cbn [snd].
    split; [ reflexivity | ]. intros parent_rate Hrate.
    cbn [run_events run_event]. run_state.
    rewrite (autodiv_no_parent_rate w Hon Hmax Hzero).
    rewrite autodiv_resolves by assumption. cbn [snd periph parent_hw_rate].
    split; [ reflexivity | split ].
    + apply autodiv_loop_clamped.
    + intros parent_rate'. rewrite autodiv_cleared by reflexivity.
      reflexivity.
  - intros Hrate. rewrite autodiv_resolves by assumption.
    cbn [snd]. repeat split. apply autodiv_loop_clamped.
Qed.

(** ** recalc_rate *)

Lemma keeps_node_ret {A : Type} (a : A) : keeps_node (R := R) (ret a).
Proof. intros w. split; reflexivity. Qed.

Lemma keeps_node_bind {A B : Type}
    (m : State (world R) A) (k : A -> State (world R) B) :
  keeps_node m -> (forall a, keeps_node (k a)) -> keeps_node (bind m k).
Proof.
  intros Hm Hk w. unfold bind.
  destruct (Hm w) as [Hp Hr]. destruct (m w) as [a w1]. cbn [snd] in *.
  destruct (Hk a w1) as [Hp' Hr']. split; congruence.
Qed.

Lemma keeps_node_gets {A : Type} (f : world R -> A) : keeps_node (gets f).
Proof. intros w. split; reflexivity. Qed.

Lemma keeps_node_on_regs {A : Type} (m : State R A) :
  keeps_node (on_regs m).
Proof.
  intros w. unfold on_regs. destruct (m (regs w)) as [a r].
  split; reflexivity.
Qed.

Lemma keeps_node_lock : keeps_node (R := R) spin_lock_irqsave.
Proof. intros w. split; reflexivity. Qed.

Lemma keeps_node_unlock : keeps_node (R := R) spin_unlock_irqrestore.
Proof. intros w. split; reflexivity. Qed.

Lemma keeps_node_if {A : Type} (b : bool) (m1 m2 : State (world R) A) :
  keeps_node m1 -> keeps_node m2 -> keeps_node (if b then m1 else m2).
Proof. destruct b; auto. Qed.

Create HintDb keeps_node.

#[local] Hint Resolve keeps_node_ret keeps_node_gets keeps_node_on_regs
  keeps_node_lock keeps_node_unlock keeps_node_if : keeps_node.

#[local] Hint Extern 2 (keeps_node (bind _ _)) =>
  apply keeps_node_bind; [ | intros ? ] : keeps_node.

Lemma keeps_node_select_id (p : clk_sam9x5_peripheral.t) :
  keeps_node (select_id p).
Proof. unfold select_id. auto with keeps_node. Qed.

#[local] Hint Resolve keeps_node_select_id : keeps_node.

(** Reading the control register leaves the node and the parent's rate as
    they are. *)
Lemma keeps_node_read_pcr : keeps_node read_pcr.
Proof. unfold read_pcr. auto 12 with keeps_node. Qed.

Lemma recalc_rate_always_on w parent_rate :
  id_of w < PERIPHERAL_ID_MIN ->
  clk_sam9x5_peripheral_recalc_rate parent_rate w = (parent_rate, w).
Proof.
  intros Hlt. unfold clk_sam9x5_peripheral_recalc_rate. run_state.
  destruct (Z.ltb_spec (id_of w) PERIPHERAL_ID_MIN); [ reflexivity | lia ].
Qed.

Lemma recalc_rate_reads w parent_rate :
  PERIPHERAL_ID_MIN <= id_of w ->
  clk_sam9x5_peripheral_recalc_rate parent_rate w
  = let (status, w1) := read_pcr w in
    let w2 :=
      if negb (Z.land status AT91_PMC_PCR_EN =? 0) then
        on_periph (clk_sam9x5_peripheral.set_auto_div false)
          (on_periph
             (clk_sam9x5_peripheral.set_div
                (field_get
                   (clk_pcr_layout.div_mask
                      (clk_sam9x5_peripheral.layout (periph w)))
                   status))
             w1)
      else snd (clk_sam9x5_peripheral_autodiv w1) in
    (Z.shiftr parent_rate (div_of w2), w2).
Proof.
  intros Hge.
  unfold clk_sam9x5_peripheral_recalc_rate, read_pcr, select_id,
    spin_lock_irqsave, spin_unlock_irqrestore.
  run_state.
  destruct (Z.ltb_spec (id_of w) PERIPHERAL_ID_MIN); [ lia | ].
  cbn [regs periph pmc_pcr_lock parent_hw_rate].
  match goal with
  | |- context [regmap_write ?reg ?val ?r] =>
      destruct (regmap_write reg val r) as [[] r1]
  end.
  cbn [regs periph pmc_pcr_lock parent_hw_rate].
  match goal with
  | |- context [regmap_read ?reg ?r] =>
      destruct (regmap_read reg r) as [status r2]
  end.
  cbn [regs periph pmc_pcr_lock parent_hw_rate].
  destruct (negb (_ =? 0)).
  - reflexivity.
  - destruct (clk_sam9x5_peripheral_autodiv _) as [[] w2]. reflexivity.
Qed.

(** C5.  recalc_rate returns the parent rate and changes nothing when
    id < 2.  Otherwise it selects the node and reads the control register: if
    the enable bit is set in what it reads, the node's divider becomes the
    value of the divider field and the auto-divider flag is cleared, whatever
    the flag was (a divider field of 2 gives a divider of 2); if the enable
    bit is clear, auto-division is run on the node; in both cases the result
    is the parent rate shifted right by the divider the node then has. *)
Theorem recalc_rate_spec w parent_rate :
  let r := fst (clk_sam9x5_peripheral_recalc_rate parent_rate w) in
  let w' := snd (clk_sam9x5_peripheral_recalc_rate parent_rate w) in
  let status := fst (read_pcr w) in
  let field :=
    field_get
      (clk_pcr_layout.div_mask (clk_sam9x5_peripheral.layout (periph w)))
      status in
  (id_of w < PERIPHERAL_ID_MIN -> r = parent_rate /\ w' = w) /\
  (PERIPHERAL_ID_MIN <= id_of w ->
   r = Z.shiftr parent_rate (div_of w') /\
   (Z.land status AT91_PMC_PCR_EN <> 0 ->
    div_of w' = field /\ auto_div_of w' = false /\
    (field = 2 -> div_of w' = 2)) /\
   (Z.land status AT91_PMC_PCR_EN = 0 ->
    w' = snd (clk_sam9x5_peripheral_autodiv (snd (read_pcr w))))).
Proof.
  cbn zeta. split.
  - intros Hlt. rewrite recalc_rate_always_on by exact Hlt.
    split; reflexivity.
  - intros Hge. rewrite recalc_rate_reads by exact Hge.
    destruct (read_pcr w) as [status w1]. cbn [fst snd].
    split; [ reflexivity | split ].
    + intros Hen.
      destruct (Z.eqb_spec (Z.land status AT91_PMC_PCR_EN) 0);
        [ contradiction | ].
      cbn [negb on_periph periph clk_sam9x5_peripheral.set_div
             clk_sam9x5_peripheral.set_auto_div clk_sam9x5_peripheral.div
             clk_sam9x5_peripheral.auto_div].
      repeat split. intros Hfield. exact Hfield.
    + intros Hdis. rewrite Hdis. reflexivity.
Qed.

(** ** The auto-divider flag never re-arms *)

Lemma keeps_node_enable : keeps_node clk_sam9x5_peripheral_enable.
Proof. unfold clk_sam9x5_peripheral_enable. auto 12 with keeps_node. Qed.

Lemma keeps_node_disable : keeps_node clk_sam9x5_peripheral_disable.
Proof. unfold clk_sam9x5_peripheral_disable. auto 12 with keeps_node. Qed.

Lemma keeps_node_is_enabled : keeps_node clk_sam9x5_peripheral_is_enabled.
Proof. unfold clk_sam9x5_peripheral_is_enabled. auto 12 with keeps_node. Qed.

Lemma recalc_rate_keeps_cleared w parent_rate :
  auto_div_of w = false ->
  auto_div_of (snd (clk_sam9x5_peripheral_recalc_rate parent_rate w)) = false.
Proof.
  intros Hoff.
  destruct (Z_lt_le_dec (id_of w) PERIPHERAL_ID_MIN) as [Hlt|Hge].
  { rewrite recalc_rate_always_on by exact Hlt. exact Hoff. }
  rewrite recalc_rate_reads by exact Hge.
  destruct (keeps_node_read_pcr w) as (Hp & _).
  destruct (read_pcr w) as [status w1]. cbn [snd] in *.
  destruct (negb (_ =? 0)); [ reflexivity | ].
  apply autodiv_keeps_cleared. rewrite Hp. exact Hoff.
Qed.

Lemma set_rate_keeps_cleared w rate parent_rate :
  auto_div_of w = false ->
  auto_div_of (snd (clk_sam9x5_peripheral_set_rate rate parent_rate w))
  = false.
Proof.
  intros Hoff. unfold clk_sam9x5_peripheral_set_rate. run_state.
  destruct ((id_of w <? PERIPHERAL_ID_MIN) || (max_of w =? 0)).
  { destruct (parent_rate =? rate); exact Hoff. }
  destruct (negb (max_of w =? 0) && (max_of w <? rate)); [ exact Hoff | ].
  destruct (set_rate_loop shift_turns rate parent_rate 0);
    [ reflexivity | exact Hoff ].
Qed.

Lemma run_event_keeps_cleared (e : sam9x5_event R) w :
  auto_div_of w = false -> auto_div_of (snd (run_event e w)) = false.
Proof.
  intros Hoff. destruct e; cbn [run_event].
  - unfold bind, ret.
    destruct (keeps_node_enable w) as [Hp _].
    destruct (clk_sam9x5_peripheral_enable w) as [r w']. cbn [snd] in *.
    rewrite Hp. exact Hoff.
  - destruct (keeps_node_disable w) as [Hp _]. rewrite Hp. exact Hoff.
  - unfold bind, ret.
    destruct (keeps_node_is_enabled w) as [Hp _].
    destruct (clk_sam9x5_peripheral_is_enabled w) as [r w']. cbn [snd] in *.
    rewrite Hp. exact Hoff.
  - unfold bind, ret.
    pose proof (recalc_rate_keeps_cleared w parent_rate Hoff) as Hp.
    destruct (clk_sam9x5_peripheral_recalc_rate parent_rate w) as [r w'].
    exact Hp.
  - unfold bind, ret.
    pose proof (round_rate_pure w rate parent_rate) as Hp.
    destruct (clk_sam9x5_peripheral_round_rate rate parent_rate w) as [r w'].
    cbn [snd] in *. rewrite Hp. exact Hoff.
  - unfold bind, ret.
    pose proof (set_rate_keeps_cleared w rate parent_rate Hoff) as Hp.
    destruct (clk_sam9x5_peripheral_set_rate rate parent_rate w) as [r w'].
    exact Hp.
  - apply autodiv_keeps_cleared. exact Hoff.
  - exact Hoff.
  - exact Hoff.
Qed.

(** C7.  Once the auto-divider flag of a node is false it is false after
    every history: whatever operations are called on the node (enable,
    disable, is_enabled, recalc_rate, round_rate, set_rate, auto-division),
    with whatever arguments, and however the registers and the rate of the
    parent change in between. *)
Theorem auto_div_never_rearms (es : list (sam9x5_event R)) w :
  auto_div_of w = false ->
  auto_div_of (snd (run_events es w)) = false.
Proof.
  revert w. induction es as [|e es IH]; intros w Hoff.
  - exact Hoff.
  - cbn [run_events]. unfold bind.
    pose proof (run_event_keeps_cleared e w Hoff) as Hstep.
    destruct (run_event e w) as [[] w1]. cbn [snd] in Hstep.
    apply IH. exact Hstep.
Qed.

(** ** The legacy node on the bit-array registers *)

Lemma land_lor_mask (status mask : Z) :
  Z.land (Z.lor status mask) mask = mask.
Proof.
  apply Z.bits_inj'. intros n _.
  rewrite Z.land_spec, Z.lor_spec.
  destruct (Z.testbit status n), (Z.testbit mask n); reflexivity.
Qed.

Lemma land_ldiff_mask (status mask : Z) :
  Z.land (Z.ldiff status mask) mask = 0.
Proof.
  apply Z.bits_inj'. intros n _.
  rewrite Z.land_spec, Z.ldiff_spec, Z.bits_0.
  destruct (Z.testbit status n), (Z.testbit mask n); reflexivity.
Qed.

Lemma PERIPHERAL_MASK_nonzero (id : Z) : PERIPHERAL_MASK id <> 0.
Proof.
  unfold PERIPHERAL_MASK, PERIPHERAL_ID_MAX.
  rewrite Z.shiftl_1_l.
  assert (0 <= Z.land id 31) by (apply Z.land_nonneg; right; lia).
  pose proof (Z.pow_pos_nonneg 2 (Z.land id 31)). lia.
Qed.

(** C8.  On the bit-array model of the PMC registers (a bit written to the
    enable register sets the bit of the status register, a bit written to the
    disable register, which is another register, clears it), for a legacy
    node with an id of 2..31 and from any state of the registers: is_enabled
    returns 1 after enable, and 0 after disable. *)
Theorem legacy_enable_disable_is_enabled
    (p : clk_peripheral.t) (m : pmc_bits) :
  AT91_PMC_PCDR <> AT91_PMC_PCER ->
  PERIPHERAL_ID_MIN <= clk_peripheral.id p <= PERIPHERAL_ID_MAX ->
  fst ((clk_peripheral_enable (rm := pmc_bits_regmap) p ;;
        clk_peripheral_is_enabled (rm := pmc_bits_regmap) p) m) = 1 /\
  fst ((clk_peripheral_disable (rm := pmc_bits_regmap) p ;;
        clk_peripheral_is_enabled (rm := pmc_bits_regmap) p) m) = 0.
Proof.
  intros Hregs [Hmin Hmax].
  unfold clk_peripheral_enable, clk_peripheral_disable,
    clk_peripheral_is_enabled.
  destruct (Z.ltb_spec (clk_peripheral.id p) PERIPHERAL_ID_MIN); [ lia | ].
  destruct (Z.ltb_spec PERIPHERAL_ID_MAX (clk_peripheral.id p)); [ lia | ].
  cbn [regmap_write regmap_read pmc_bits_regmap].
  unfold pmc_bits_write, pmc_bits_read. run_state.
  destruct (Z.eqb_spec AT91_PMC_PCDR AT91_PMC_PCER); [ contradiction | ].
  rewrite !Z.eqb_refl. cbn [fst pcsr].
  rewrite land_lor_mask, land_ldiff_mask.
  destruct (Z.eqb_spec (PERIPHERAL_MASK (clk_peripheral.id p)) 0) as [Hz|_].
  - exfalso. exact (PERIPHERAL_MASK_nonzero _ Hz).
  - split; reflexivity.
Qed.

(** ** Registration *)

Lemma autodiv_frame w :
  same_but_divider w (snd (clk_sam9x5_peripheral_autodiv w)).
Proof.
  destruct (auto_div_of w) eqn:Hflag.
  2:{ rewrite autodiv_cleared by exact Hflag. repeat split. }
  destruct (Z.eq_dec (max_of w) 0) as [Hz|Hnz].
  { rewrite autodiv_unranged by assumption. repeat split. }
  destruct (Z.eq_dec (parent_hw_rate w) 0) as [Hr|Hr].
  { rewrite autodiv_no_parent_rate by assumption. repeat split. }
  rewrite autodiv_resolves by assumption. repeat split.
Qed.

(** C9 (as amended).  Registering a legacy node with an id above 31 fails
    with -EINVAL, also when a name and a parent name are given and the
    allocation succeeds.  Registering an indirect node does not look at the
    id: when a name and a parent name are given, the allocation succeeds and
    the clock framework accepts the node, it returns a node with that id,
    whatever the id is. *)
Theorem register_id_check (name parent_name : string) (id : Z) :
  (PERIPHERAL_ID_MAX < id ->
   forall kzalloc_ok clk_hw_register_ret,
     at91_clk_register_peripheral (Some name) (Some parent_name) id
       kzalloc_ok clk_hw_register_ret
     = ERR_PTR (- EINVAL)) /\
  (forall (regmap : R) lock layout range parent_rate,
   exists w,
     at91_clk_register_sam9x5_peripheral regmap lock layout
       (Some name) (Some parent_name) id range true 0 parent_rate
     = HW w /\
     id_of w = id /\ regs w = regmap).
Proof.
  split.
  - intros Hid kzalloc_ok clk_hw_register_ret.
    unfold at91_clk_register_peripheral. cbn [orb].
    destruct (Z.ltb_spec PERIPHERAL_ID_MAX id); [ reflexivity | lia ].
  - intros regmap lock layout range parent_rate.
    unfold at91_clk_register_sam9x5_peripheral.
    cbn [orb negb Z.eqb].
    eexists. split; [ reflexivity | ].
    match goal with
    | |- context [clk_sam9x5_peripheral_autodiv ?w0] =>
        destruct (autodiv_frame w0) as (Hregs & _ & _ & _ & Hid & _)
    end.
    split; [ exact Hid | exact Hregs ].
Qed.

(** ** Always-on identifiers and repeated rounding *)

(** X1.  For an id below 2, on both kinds of node and whatever the register
    transport: enable succeeds, is_enabled answers 1, and neither they nor
    disable touch the registers or anything else. *)
Theorem always_on_ids :
  (forall (p : clk_peripheral.t) (r : R),
     clk_peripheral.id p < PERIPHERAL_ID_MIN ->
     clk_peripheral_enable p r = (0, r) /\
     clk_peripheral_disable p r = (tt, r) /\
     clk_peripheral_is_enabled p r = (1, r)) /\
  (forall w,
     id_of w < PERIPHERAL_ID_MIN ->
     clk_sam9x5_peripheral_enable w = (0, w) /\
     clk_sam9x5_peripheral_disable w = (tt, w) /\
     clk_sam9x5_peripheral_is_enabled w = (1, w)).
Proof.
  split.
  - intros p r Hlt.
    unfold clk_peripheral_enable, clk_peripheral_disable,
      clk_peripheral_is_enabled.
    destruct (Z.ltb_spec (clk_peripheral.id p) PERIPHERAL_ID_MIN);
      [ | lia ].
    repeat split.
  - intros w Hlt.
    unfold clk_sam9x5_peripheral_enable, clk_sam9x5_peripheral_disable,
      clk_sam9x5_peripheral_is_enabled.
    run_state.
    destruct (Z.ltb_spec (id_of w) PERIPHERAL_ID_MIN); [ | lia ].
    repeat split.
Qed.

(** X2.  round_rate changes nothing, so that asking again, with the same target
    and parent rate, gives the same rate. *)
Theorem round_rate_idempotent w rate parent_rate :
  snd (clk_sam9x5_peripheral_round_rate rate parent_rate w) = w /\
  clk_sam9x5_peripheral_round_rate rate parent_rate
    (snd (clk_sam9x5_peripheral_round_rate rate parent_rate w))
  = clk_sam9x5_peripheral_round_rate rate parent_rate w.
Proof.
  pose proof (round_rate_pure w rate parent_rate) as Hpure.
  split; [ exact Hpure | ]. rewrite Hpure. reflexivity.
Qed.

End Properties.

(** * The properties on the SAM9X5

    Each property that has a hypothesis, applied to a node of the SAM9X5 PMC,
    and the inputs on which a sentence of the specification fails. *)

(** A parent at 133 MHz under a maximum of 83 MHz: a request for 100 MHz is
    rounded within the maximum. *)
Lemma round_rate_within_max_sam9x5 :
  let w := sam9x5_world 2 83000000 133000000 in
  PERIPHERAL_ID_MIN <= clk_sam9x5_peripheral.id (periph w) /\
  clk_range.max (clk_sam9x5_peripheral.range (periph w)) <> 0 /\
  0 <= 133000000 /\
  fst (clk_sam9x5_peripheral_round_rate 100000000 133000000 w) <= 83000000.
Proof.
  cbn zeta.
  assert (Hid : PERIPHERAL_ID_MIN
                <= clk_sam9x5_peripheral.id
                     (periph (sam9x5_world 2 83000000 133000000)))
    by (vm_compute; discriminate).
  assert (Hmax : clk_range.max
                   (clk_sam9x5_peripheral.range
                      (periph (sam9x5_world 2 83000000 133000000))) <> 0)
    by (vm_compute; discriminate).
  assert (Hpr : 0 <= 133000000) by lia.
  split; [ exact Hid | ]. split; [ exact Hmax | ]. split; [ exact Hpr | ].
  apply (round_rate_within_max (sam9x5_world 2 83000000 133000000)
           100000000 133000000 Hid Hmax Hpr).
  vm_compute. discriminate.
Defined.

(** C1, as the specification states it, fails: under a maximum of 100 a
    parent at 1000 cannot be divided below 125, and round_rate returns 125. *)
Lemma round_rate_above_max :
  let w := sam9x5_world 2 100 1000 in
  PERIPHERAL_ID_MIN <= clk_sam9x5_peripheral.id (periph w) /\
  clk_range.max (clk_sam9x5_peripheral.range (periph w)) = 100 /\
  fst (clk_sam9x5_peripheral_round_rate 1000 1000 w) = 125 /\
  ~ fst (clk_sam9x5_peripheral_round_rate 1000 1000 w)
    <= clk_range.max (clk_sam9x5_peripheral.range (periph w)).
Proof.
  cbn zeta. split; [ vm_compute; discriminate | ].
  split; [ reflexivity | ]. split; [ reflexivity | ].
  vm_compute. intros H. apply H. reflexivity.
Qed.

(** The example of the specification: the ceiling shift is 1 and the result
    66.5 MHz. *)
Lemma round_rate_search_sam9x5 :
  let w := sam9x5_world 2 83000000 133000000 in
  PERIPHERAL_ID_MIN <= clk_sam9x5_peripheral.id (periph w) /\
  clk_range.max (clk_sam9x5_peripheral.range (periph w)) <> 0 /\
  0 <= 133000000 /\
  ceiling_shift 133000000
    (clk_range.max (clk_sam9x5_peripheral.range (periph w))) 1 /\
  fst (clk_sam9x5_peripheral_round_rate 70000000 133000000 w) = 66500000 /\
  fst (clk_sam9x5_peripheral_round_rate 70000000 133000000 w)
  = Z.shiftr 133000000 1.
Proof.
  cbn zeta.
  assert (Hid : PERIPHERAL_ID_MIN
                <= clk_sam9x5_peripheral.id
                     (periph (sam9x5_world 2 83000000 133000000)))
    by (vm_compute; discriminate).
  assert (Hmax : clk_range.max
                   (clk_sam9x5_peripheral.range
                      (periph (sam9x5_world 2 83000000 133000000))) <> 0)
    by (vm_compute; discriminate).
  assert (Hpr : 0 <= 133000000) by lia.
  assert (Hceil : ceiling_shift 133000000
                    (clk_range.max
                       (clk_sam9x5_peripheral.range
                          (periph (sam9x5_world 2 83000000 133000000)))) 1).
  { split; [ vm_compute; split; discriminate | ].
    split; [ vm_compute; discriminate | ].
    intros k Hk. assert (k = 0) as -> by lia. vm_compute. reflexivity. }
  split; [ exact Hid | ]. split; [ exact Hmax | ]. split; [ exact Hpr | ].
  split; [ exact Hceil | ].
  destruct (round_rate_search (sam9x5_world 2 83000000 133000000)
              70000000 133000000 Hid Hmax Hpr) as (Hfound & _ & Hexample).
  split.
  - apply Hexample; reflexivity.
  - destruct (Hfound 1 Hceil) as [Hret _]. apply Hret.
    vm_compute. discriminate.
Defined.

(** C2, as the specification states it, fails: under a maximum of 100 no
    shift of 0..3 brings a parent at 1000 within the maximum, so there is no
    ceiling candidate to take; round_rate returns 125, the parent rate
    divided by eight, for a target above, between and below the
    candidates. *)
Lemma round_rate_without_ceiling :
  let w := sam9x5_world 2 100 1000 in
  PERIPHERAL_ID_MIN <= clk_sam9x5_peripheral.id (periph w) /\
  clk_range.max (clk_sam9x5_peripheral.range (periph w)) = 100 /\
  (forall s, 0 <= s <= PERIPHERAL_MAX_SHIFT -> 100 < Z.shiftr 1000 s) /\
  (forall s0, ~ ceiling_shift 1000 100 s0) /\
  fst (clk_sam9x5_peripheral_round_rate 5000 1000 w) = 125 /\
  fst (clk_sam9x5_peripheral_round_rate 110 1000 w) = 125 /\
  fst (clk_sam9x5_peripheral_round_rate 1 1000 w) = 125.
Proof.
  cbn zeta.
  assert (Hnone : forall s, 0 <= s <= PERIPHERAL_MAX_SHIFT ->
                    100 < Z.shiftr 1000 s).
  { unfold PERIPHERAL_MAX_SHIFT. intros s Hs.
    assert (s = 0 \/ s = 1 \/ s = 2 \/ s = 3) as [-> | [-> | [-> | ->]]]
      by lia; vm_compute; reflexivity. }
  split; [ vm_compute; discriminate | ]. split; [ reflexivity | ].
  split; [ exact Hnone | ]. split.
  - intros s0 (Hs0 & Hle & _). specialize (Hnone s0 Hs0). lia.
  - repeat split.
Qed.

(** C3, as the specification states it, fails: with a range maximum of 100,
    the parent rate 200 shifted by 0 is exactly the requested 200, and
    set_rate fails, since 200 exceeds the maximum. *)
Lemma set_rate_refuses_exact_shift :
  let w := sam9x5_world 2 100 200 in
  clk_range.max (clk_sam9x5_peripheral.range (periph w)) <> 0 /\
  (exists s, 0 <= s <= 3 /\ Z.shiftr 200 s = 200) /\
  fst (clk_sam9x5_peripheral_set_rate 200 200 w) = - EINVAL /\
  fst (clk_sam9x5_peripheral_set_rate 200 200 w) <> 0.
Proof.
  cbn zeta. split; [ vm_compute; discriminate | ].
  split; [ exists 0; split; [ lia | reflexivity ] | ].
  split; [ reflexivity | vm_compute; discriminate ].
Qed.

(** The examples of the specification for set_rate: 16.625 MHz is the parent
    rate divided by 8 and is accepted with divider 3; 50 MHz is refused. *)
Lemma set_rate_cases_sam9x5 :
  let w := sam9x5_world 2 83000000 133000000 in
  (fst (clk_sam9x5_peripheral_set_rate 16625000 133000000 w) = 0 /\
   exact_shift 16625000 133000000
     (clk_sam9x5_peripheral.div
        (periph (snd (clk_sam9x5_peripheral_set_rate 16625000 133000000 w))))
   /\
   clk_sam9x5_peripheral.div
     (periph (snd (clk_sam9x5_peripheral_set_rate 16625000 133000000 w)))
   = 3) /\
  fst (clk_sam9x5_peripheral_set_rate 50000000 133000000 w) = - EINVAL.
Proof.
  cbn zeta.
  pose proof (set_rate_cases (sam9x5_world 2 83000000 133000000)
                16625000 133000000) as [_ Hdiv].
  cbn zeta in Hdiv.
  destruct Hdiv as [_ Hin]; [ vm_compute; split; discriminate | ].
  destruct Hin as (_ & _ & Hdone); [ vm_compute; discriminate | ].
  destruct Hdone as [Hexact _]; [ reflexivity | ].
  split; [ | reflexivity ].
  split; [ reflexivity | ]. split; [ exact Hexact | reflexivity ].
Defined.

(** A node whose clock the boot loader left running with divider 2:
    recalc_rate takes the divider over and clears the flag. *)
Lemma recalc_rate_spec_sam9x5 :
  let w := sam9x5_world_running 2 83000000 133000000 2 in
  let w' :=
    snd (clk_sam9x5_peripheral_recalc_rate (hdr := sam9x5_pmc_h)
           (rm := pcr_regmap) 133000000 w) in
  clk_sam9x5_peripheral.auto_div (periph w) = true /\
  clk_sam9x5_peripheral.div (periph w') = 2 /\
  clk_sam9x5_peripheral.auto_div (periph w') = false /\
  fst (clk_sam9x5_peripheral_recalc_rate (hdr := sam9x5_pmc_h)
         (rm := pcr_regmap) 133000000 w) = 33250000.
Proof.
  cbn zeta.
  pose proof (recalc_rate_spec (hdr := sam9x5_pmc_h) (rm := pcr_regmap)
                (sam9x5_world_running 2 83000000 133000000 2) 133000000)
    as [_ Hon].
  cbn zeta in Hon.
  destruct Hon as (Hrate & Hen & _); [ vm_compute; discriminate | ].
  destruct Hen as (_ & Hflag & Hdiv); [ vm_compute; discriminate | ].
  specialize (Hdiv eq_refl).
  split; [ reflexivity | ]. split; [ exact Hdiv | ].
  split; [ exact Hflag | ].
  rewrite Hrate, Hdiv. reflexivity.
Defined.

(** A node registered before its parent has a rate: auto-division waits, and
    resolves to divider 1 once the parent runs at 133 MHz. *)
Lemma autodiv_resolution_sam9x5 :
  let w := sam9x5_world 2 83000000 0 in
  clk_sam9x5_peripheral.auto_div (periph w) = true /\
  clk_range.max (clk_sam9x5_peripheral.range (periph w)) <> 0 /\
  snd (clk_sam9x5_peripheral_autodiv w) = w /\
  (let w1 :=
     snd (run_events (hdr := sam9x5_pmc_h) (rm := pcr_regmap)
            [Autodiv; ParentRateChange 133000000; Autodiv] w) in
   clk_sam9x5_peripheral.auto_div (periph w1) = false /\
   clk_sam9x5_peripheral.div (periph w1) = 1 /\
   clamped_ceiling_shift 133000000 83000000
     (clk_sam9x5_peripheral.div (periph w1))).
Proof.
  cbn zeta.
  assert (Hon : clk_sam9x5_peripheral.auto_div
                  (periph (sam9x5_world 2 83000000 0)) = true)
    by reflexivity.
  assert (Hmax : clk_range.max
                   (clk_sam9x5_peripheral.range
                      (periph (sam9x5_world 2 83000000 0))) <> 0)
    by (vm_compute; discriminate).
  destruct (autodiv_resolution (hdr := sam9x5_pmc_h) (rm := pcr_regmap)
              (sam9x5_world 2 83000000 0) Hon Hmax)
    as [Hwait _].
  destruct (Hwait eq_refl) as [Hsame Hnext].
  destruct (Hnext 133000000 ltac:(discriminate)) as (Hoff & Hshift & _).
  split; [ exact Hon | ]. split; [ exact Hmax | ]. split; [ exact Hsame | ].
  split; [ exact Hoff | ]. split; [ reflexivity | exact Hshift ].
Defined.

(** A history of a node whose flag is cleared. *)
Lemma auto_div_never_rearms_sam9x5 :
  let w := snd (clk_sam9x5_peripheral_autodiv
                  (sam9x5_world 2 83000000 133000000)) in
  let es :=
    [Enable; RecalcRate 133000000; Disable; RegsChange (fun _ => pcr_reset);
     RecalcRate 133000000; SetRate 16625000 133000000;
     RoundRate 70000000 133000000; IsEnabled; ParentRateChange 0; Autodiv] in
  clk_sam9x5_peripheral.auto_div (periph w) = false /\
  clk_sam9x5_peripheral.auto_div
    (periph (snd (run_events (hdr := sam9x5_pmc_h) (rm := pcr_regmap) es w)))
  = false.
Proof.
  cbn zeta. split; [ reflexivity | ].
  apply (auto_div_never_rearms (hdr := sam9x5_pmc_h) (rm := pcr_regmap)).
  reflexivity.
Defined.

(** The legacy node of peripheral 5 on the bit-array registers. *)
Lemma legacy_enable_disable_is_enabled_sam9x5 :
  let p := clk_peripheral.mk 5 in
  let m := {| pcsr := 0; pcsr1 := 0 |} in
  @AT91_PMC_PCDR sam9x5_pmc_h <> @AT91_PMC_PCER sam9x5_pmc_h /\
  PERIPHERAL_ID_MIN <= clk_peripheral.id p <= PERIPHERAL_ID_MAX /\
  fst ((clk_peripheral_enable (hdr := sam9x5_pmc_h)
          (rm := pmc_bits_regmap (hdr := sam9x5_pmc_h)) p ;;
        clk_peripheral_is_enabled (hdr := sam9x5_pmc_h)
          (rm := pmc_bits_regmap (hdr := sam9x5_pmc_h)) p) m) = 1 /\
  fst ((clk_peripheral_disable (hdr := sam9x5_pmc_h)
          (rm := pmc_bits_regmap (hdr := sam9x5_pmc_h)) p ;;
        clk_peripheral_is_enabled (hdr := sam9x5_pmc_h)
          (rm := pmc_bits_regmap (hdr := sam9x5_pmc_h)) p) m) = 0.
Proof.
  cbn zeta.
  assert (Hregs : @AT91_PMC_PCDR sam9x5_pmc_h <> @AT91_PMC_PCER sam9x5_pmc_h)
    by (vm_compute; discriminate).
  assert (Hid : PERIPHERAL_ID_MIN <= clk_peripheral.id (clk_peripheral.mk 5)
                <= PERIPHERAL_ID_MAX)
    by (vm_compute; split; discriminate).
  split; [ exact Hregs | ]. split; [ exact Hid | ].
  apply (legacy_enable_disable_is_enabled (hdr := sam9x5_pmc_h)
           (clk_peripheral.mk 5) {| pcsr := 0; pcsr1 := 0 |} Hregs Hid).
Defined.

(** C9, as the specification states it, fails for the indirect node:
    registration with id 32 succeeds. *)
Lemma register_sam9x5_accepts_id_32 :
  PERIPHERAL_ID_MAX < 32 /\
  at91_clk_register_sam9x5_peripheral pcr_reset false at91sam9x5_pcr_layout
    (Some "pioD_clk"%string) (Some "masterck"%string) 32 (clk_range.mk 0 0)
    true 0 133000000
  = HW (World
          (clk_sam9x5_peripheral.mk (clk_range.mk 0 0) 32 0
             at91sam9x5_pcr_layout false)
          pcr_reset false 133000000) /\
  at91_clk_register_sam9x5_peripheral pcr_reset false at91sam9x5_pcr_layout
    (Some "pioD_clk"%string) (Some "masterck"%string) 32 (clk_range.mk 0 0)
    true 0 133000000
  <> ERR_PTR (- EINVAL).
Proof.
  split; [ reflexivity | ]. split; [ reflexivity | ].
  vm_compute. discriminate.
Qed.

(** * Further properties of the driver *)

Section Operations.

Context {hdr : PmcHeader} {R : Type} {rm : Regmap R}.

Implicit Types (w : world R) (rate parent_rate : Z).

Local Abbreviation id_of w := (clk_sam9x5_peripheral.id (periph w)).
Local Abbreviation max_of w :=
  (clk_range.max (clk_sam9x5_peripheral.range (periph w))).
Local Abbreviation div_of w := (clk_sam9x5_peripheral.div (periph w)).
Local Abbreviation auto_div_of w :=
  (clk_sam9x5_peripheral.auto_div (periph w)).

(** ** Rounding a rate, then setting it *)

(** Where round_rate takes its result from, on a node with a divider. *)
Lemma round_rate_candidate w rate parent_rate :
  PERIPHERAL_ID_MIN <= id_of w -> max_of w <> 0 -> 0 <= parent_rate ->
  let r := fst (clk_sam9x5_peripheral_round_rate rate parent_rate w) in
  (forall s0, ceiling_shift parent_rate (max_of w) s0 ->
     exists s, s0 <= s <= PERIPHERAL_MAX_SHIFT /\
               r = Z.shiftr parent_rate s /\ r <= max_of w) /\
  (no_ceiling parent_rate (max_of w) ->
   r = Z.shiftr parent_rate PERIPHERAL_MAX_SHIFT).
Proof.
  intros Hid Hmax Hpr. cbn zeta.
  rewrite round_rate_divider by assumption. cbn [fst]. split.
  - intros s0 Hceil.
    rewrite (round_rate_ceil_loop_ceiling _ _ _ shift_turns Hceil)
      by (destruct Hceil; try apply shift_turns_enough; lia).
    destruct Hceil as (Hs0 & Hle & _).
    destruct (Z.leb_spec (Z.shiftr parent_rate s0) rate) as [Hret|Hsearch].
    + exists s0. repeat split; lia.
    + pose proof (round_rate_best_loop_spec rate parent_rate shift_turns Hpr
                    s0 (Z.shiftr parent_rate s0) _
                    ltac:(lia) (shift_turns_enough s0 ltac:(lia)) Hsearch
                    eq_refl ltac:(lia)) as (Hwhere & Hbest & _).
      cbn zeta in Hwhere, Hbest.
      destruct Hwhere as [Hr | (s & Hs & Hr & _)].
      * exists s0. split; [ lia | ]. split; [ exact Hr | lia ].
      * exists s. split; [ lia | ]. split; [ exact Hr | lia ].
  - intros Hnone.
    rewrite (round_rate_ceil_loop_no_ceiling _ _ shift_turns Hnone)
      by (try apply shift_turns_enough; unfold PERIPHERAL_MAX_SHIFT; lia).
    destruct (Z.shiftr parent_rate PERIPHERAL_MAX_SHIFT <=? rate);
      reflexivity.
Qed.

(** X3.  Whatever the node and the target, for a parent rate that fits a
    [long] (of any width [bits]), round_rate answers with a rate the divider
    can produce from the parent rate: the [long] it returns is the parent
    rate shifted right by a shift of 0..3, hence a rate between 0 and the
    parent rate. *)
Theorem round_rate_achievable w rate parent_rate (bits : Z) :
  0 <= parent_rate < 2 ^ (bits - 1) ->
  let r :=
    long_of_ulong bits
      (fst (clk_sam9x5_peripheral_round_rate rate parent_rate w)) in
  (exists s, 0 <= s <= PERIPHERAL_MAX_SHIFT /\ r = Z.shiftr parent_rate s) /\
  0 <= r <= parent_rate.
Proof.
  intros [Hpr Hfits]. cbn zeta.
  assert (Hbounds : forall s, 0 <= s ->
            0 <= Z.shiftr parent_rate s <= parent_rate).
  { intros s Hs. split; [ apply Z.shiftr_nonneg; exact Hpr | ].
    pose proof (shiftr_antitone parent_rate 0 s Hpr ltac:(lia)) as Hle.
    rewrite Z.shiftr_0_r in Hle. exact Hle. }
  assert (Hcand : exists s, 0 <= s <= PERIPHERAL_MAX_SHIFT /\
            fst (clk_sam9x5_peripheral_round_rate rate parent_rate w)
            = Z.shiftr parent_rate s).
  { destruct (Z_lt_le_dec (id_of w) PERIPHERAL_ID_MIN) as [Hlt|Hge];
      [ | destruct (Z.eq_dec (max_of w) 0) as [Hz|Hnz] ].
    1,2: rewrite round_rate_no_divider by (auto; fail); exists 0;
         (split; [ unfold PERIPHERAL_MAX_SHIFT; lia
                 | rewrite Z.shiftr_0_r; reflexivity ]).
    destruct (round_rate_candidate w rate parent_rate Hge Hnz Hpr)
      as [Hceil Hnone].
    destruct (ceiling_or_none parent_rate (max_of w)) as [(s0 & Hs0) | Hno].
    - destruct (Hceil s0 Hs0) as (s & Hs & Hr & _).
      exists s. split; [ destruct Hs0; lia | exact Hr ].
    - exists PERIPHERAL_MAX_SHIFT.
      split; [ unfold PERIPHERAL_MAX_SHIFT; lia | exact (Hnone Hno) ]. }
  destruct Hcand as (s & Hs & ->).
  pose proof (Hbounds s ltac:(lia)) as Hword.
  unfold long_of_ulong.
  destruct (Z.ltb_spec (Z.shiftr parent_rate s) (2 ^ (bits - 1)));
    [ | lia ].
  split; [ exists s; split; [ exact Hs | reflexivity ] | exact Hword ].
Qed.

(** X4.  Setting the rate that round_rate answered, with the same parent
    rate.  On a node without divider (id < 2 or no range maximum), and on a
    node with one whose parent rate divided by eight is within the maximum,
    set_rate accepts the rounded rate, and on the node with a divider the
    stored divider then yields exactly that rate and the auto-divider flag is
    cleared.  On a node with a divider whose parent rate divided by eight
    exceeds the maximum, set_rate refuses the rounded rate with -EINVAL. *)
Theorem round_rate_then_set_rate w rate parent_rate :
  0 <= parent_rate ->
  let r := fst (clk_sam9x5_peripheral_round_rate rate parent_rate w) in
  let res := clk_sam9x5_peripheral_set_rate r parent_rate w in
  (id_of w < PERIPHERAL_ID_MIN \/ max_of w = 0 -> res = (0, w)) /\
  (PERIPHERAL_ID_MIN <= id_of w /\ max_of w <> 0 ->
   (Z.shiftr parent_rate PERIPHERAL_MAX_SHIFT <= max_of w ->
    fst res = 0 /\
    Z.shiftr parent_rate (div_of (snd res)) = r /\
    auto_div_of (snd res) = false) /\
   (max_of w < Z.shiftr parent_rate PERIPHERAL_MAX_SHIFT ->
    res = (- EINVAL, w))).
Proof.
  intros Hpr. cbn zeta. split.
  - intros Hno. rewrite round_rate_no_divider by exact Hno. cbn [fst].
    rewrite set_rate_no_divider by exact Hno.
    rewrite Z.eqb_refl. reflexivity.
  - intros [Hid Hmax].
    destruct (round_rate_candidate w rate parent_rate Hid Hmax Hpr)
      as [Hceil Hnone].
    cbn zeta in Hceil, Hnone. split.
    + intros Hfits.
      destruct (ceiling_shift_exists parent_rate (max_of w)
                  PERIPHERAL_MAX_SHIFT
                  ltac:(unfold PERIPHERAL_MAX_SHIFT; lia) Hfits)
        as [s0 Hs0].
      destruct (Hceil s0 Hs0) as (s & Hs & Hr & Hle).
      destruct (set_rate_divider_cases w
                  (fst (clk_sam9x5_peripheral_round_rate rate parent_rate w))
                  parent_rate Hid Hmax)
        as [(Hover & _) | [(_ & Hmiss & _) | (_ & k & Hk & ->)]].
      * lia.
      * exfalso. apply (Hmiss s); [ destruct Hs0; lia | ]. symmetry.
        exact Hr.
      * cbn [fst snd on_periph periph clk_sam9x5_peripheral.set_div
               clk_sam9x5_peripheral.set_auto_div clk_sam9x5_peripheral.div
               clk_sam9x5_peripheral.auto_div].
        destruct Hk as (_ & Hexact & _).
        split; [ reflexivity | ]. split; [ exact Hexact | reflexivity ].
    + intros Hover.
      assert (Hno : no_ceiling parent_rate (max_of w)).
      { intros k Hk.
        pose proof (shiftr_antitone parent_rate k PERIPHERAL_MAX_SHIFT
                      Hpr Hk).
        lia. }
      rewrite (Hnone Hno). rewrite set_rate_divider by assumption.
      destruct (Z.ltb_spec (max_of w)
                  (Z.shiftr parent_rate PERIPHERAL_MAX_SHIFT));
        [ reflexivity | lia ].
Qed.

(** X5.  After set_rate has accepted a rate on a node with a divider,
    recalc_rate with the same parent rate reports that rate and leaves the
    node as set_rate left it, as long as the hardware reports the clock
    disabled (recalc_rate then runs auto-division, which the cleared flag
    turns into nothing). *)
Theorem set_rate_then_recalc_rate w rate parent_rate :
  PERIPHERAL_ID_MIN <= id_of w ->
  max_of w <> 0 ->
  fst (clk_sam9x5_peripheral_set_rate rate parent_rate w) = 0 ->
  let w1 := snd (clk_sam9x5_peripheral_set_rate rate parent_rate w) in
  Z.land (fst (read_pcr w1)) AT91_PMC_PCR_EN = 0 ->
  fst (clk_sam9x5_peripheral_recalc_rate parent_rate w1) = rate /\
  periph (snd (clk_sam9x5_peripheral_recalc_rate parent_rate w1))
  = periph w1.
Proof.
  intros Hid Hmax.
  destruct (set_rate_divider_cases w rate parent_rate Hid Hmax)
    as [(_ & ->) | [(_ & _ & ->) | (_ & s & Hs & ->)]];
    cbn [fst snd]; try (unfold EINVAL; discriminate).
  intros _ Hoff.
  set (w1 := on_periph (clk_sam9x5_peripheral.set_div s)
               (on_periph (clk_sam9x5_peripheral.set_auto_div false) w))
    in *.
  rewrite recalc_rate_reads by exact Hid.
  destruct (keeps_node_read_pcr w1) as [Hp _].
  destruct (read_pcr w1) as [status w2]. cbn [fst snd] in *.
  rewrite Hoff. cbn [Z.eqb negb].
  assert (Hflag : auto_div_of w2 = false) by (rewrite Hp; reflexivity).
  rewrite (autodiv_cleared w2 Hflag). cbn [fst snd].
  rewrite Hp. split; [ | reflexivity ].
  destruct Hs as (_ & Hexact & _). exact Hexact.
Qed.

End Operations.

(** ** What a history can do to a node *)

Section NodeHistories.

Context {hdr : PmcHeader} {R : Type} {rm : Regmap R}.

Implicit Types (w : world R) (rate parent_rate : Z).

Local Abbreviation id_of w := (clk_sam9x5_peripheral.id (periph w)).
Local Abbreviation max_of w :=
  (clk_range.max (clk_sam9x5_peripheral.range (periph w))).
Local Abbreviation div_of w := (clk_sam9x5_peripheral.div (periph w)).
Local Abbreviation layout_of w :=
  (clk_sam9x5_peripheral.layout (periph w)).

(** The node after an event is the node before it, or the node before it
    with the flag cleared and a new divider [d], which is a shift of 0..3 or
    the divider field of a register value. *)
Local Abbreviation stepped p p' :=
  (p' = p \/
   exists d,
     p' = clk_sam9x5_peripheral.mk (clk_sam9x5_peripheral.range p)
            (clk_sam9x5_peripheral.id p) d (clk_sam9x5_peripheral.layout p)
            false /\
     (0 <= d <= PERIPHERAL_MAX_SHIFT \/
      exists status,
        d = field_get
              (clk_pcr_layout.div_mask (clk_sam9x5_peripheral.layout p))
              status)).

Lemma clamped_ceiling_shift_bounds (parent_rate max d : Z) :
  clamped_ceiling_shift parent_rate max d -> 0 <= d <= PERIPHERAL_MAX_SHIFT.
Proof.
  intros [(Hd & _) | (_ & ->)]; [ exact Hd | ].
  unfold PERIPHERAL_MAX_SHIFT. lia.
Qed.

Lemma autodiv_stepped w :
  stepped (periph w) (periph (snd (clk_sam9x5_peripheral_autodiv w))).
Proof.
  destruct (clk_sam9x5_peripheral.auto_div (periph w)) eqn:Hflag.
  2:{ rewrite autodiv_cleared by exact Hflag. left. reflexivity. }
  destruct (Z.eq_dec (max_of w) 0) as [Hz|Hnz].
  { rewrite autodiv_unranged by assumption. right. exists 0.
    split; [ reflexivity | left; unfold PERIPHERAL_MAX_SHIFT; lia ]. }
  destruct (Z.eq_dec (parent_hw_rate w) 0) as [Hr|Hr].
  { rewrite autodiv_no_parent_rate by assumption. left. reflexivity. }
  rewrite autodiv_resolves by assumption. right.
  exists (autodiv_loop shift_turns (parent_hw_rate w) (max_of w) 0).
  split; [ reflexivity | left ].
  apply (clamped_ceiling_shift_bounds (parent_hw_rate w) (max_of w)).
  apply autodiv_loop_clamped.
Qed.

Lemma set_rate_stepped w rate parent_rate :
  stepped (periph w)
    (periph (snd (clk_sam9x5_peripheral_set_rate rate parent_rate w))).
Proof.
  destruct (Z_lt_le_dec (id_of w) PERIPHERAL_ID_MIN) as [Hlt|Hge];
    [ | destruct (Z.eq_dec (max_of w) 0) as [Hz|Hnz] ].
  1,2: rewrite set_rate_no_divider by (auto; fail); left; reflexivity.
  destruct (set_rate_divider_cases w rate parent_rate Hge Hnz)
    as [(_ & ->) | [(_ & _ & ->) | (_ & s & Hs & ->)]].
  1,2: left; reflexivity.
  right. exists s. split; [ reflexivity | left ]. destruct Hs as (Hs & _).
  exact Hs.
Qed.

Lemma recalc_rate_stepped w parent_rate :
  stepped (periph w)
    (periph (snd (clk_sam9x5_peripheral_recalc_rate parent_rate w))).
Proof.
  destruct (Z_lt_le_dec (id_of w) PERIPHERAL_ID_MIN) as [Hlt|Hge].
  { rewrite recalc_rate_always_on by exact Hlt. left. reflexivity. }
  rewrite recalc_rate_reads by exact Hge.
  destruct (keeps_node_read_pcr w) as [Hp _].
  destruct (read_pcr w) as [status w1]. cbn [snd] in *.
  destruct (negb (_ =? 0)); cbn [snd].
  - right. eexists. split.
    + cbn [on_periph periph clk_sam9x5_peripheral.set_div
             clk_sam9x5_peripheral.set_auto_div
             clk_sam9x5_peripheral.range clk_sam9x5_peripheral.id
             clk_sam9x5_peripheral.layout clk_sam9x5_peripheral.div].
      rewrite Hp. reflexivity.
    + right. exists status. reflexivity.
  - pose proof (autodiv_stepped w1) as Hstep. rewrite Hp in Hstep.
    exact Hstep.
Qed.

Lemma run_event_stepped (e : sam9x5_event R) w :
  stepped (periph w) (periph (snd (run_event e w))).
Proof.
  destruct e; cbn [run_event].
  - unfold bind, ret. destruct (keeps_node_enable w) as [Hp _].
    destruct (clk_sam9x5_peripheral_enable w) as [r w']. cbn [snd] in *.
    left. exact Hp.
  - destruct (keeps_node_disable w) as [Hp _]. left. exact Hp.
  - unfold bind, ret. destruct (keeps_node_is_enabled w) as [Hp _].
    destruct (clk_sam9x5_peripheral_is_enabled w) as [r w']. cbn [snd] in *.
    left. exact Hp.
  - unfold bind, ret.
    pose proof (recalc_rate_stepped w parent_rate) as Hstep.
    destruct (clk_sam9x5_peripheral_recalc_rate parent_rate w) as [r w'].
    exact Hstep.
  - unfold bind, ret.
    pose proof (round_rate_pure w rate parent_rate) as Hp.
    destruct (clk_sam9x5_peripheral_round_rate rate parent_rate w) as [r w'].
    cbn [snd] in *. left. rewrite Hp. reflexivity.
  - unfold bind, ret.
    pose proof (set_rate_stepped w rate parent_rate) as Hstep.
    destruct (clk_sam9x5_peripheral_set_rate rate parent_rate w) as [r w'].
    exact Hstep.
  - apply autodiv_stepped.
  - unfold on_regs, modify. left. reflexivity.
  - left. reflexivity.
Qed.

Lemma run_event_same_config (e : sam9x5_event R) w :
  same_config w (snd (run_event e w)).
Proof.
  unfold same_config.
  destruct (run_event_stepped e w) as [Heq | (d & Heq & _)];
    rewrite Heq; repeat split.
Qed.

(** X6.  The range, the identifier and the register layout of a node are
    those it was registered with, whatever happens to it afterwards:
    operations called with any arguments, changes of the registers, changes
    of the parent's rate. *)
Theorem node_config_immutable (es : list (sam9x5_event R)) w :
  same_config w (snd (run_events es w)).
Proof.
  revert w. induction es as [|e es IH]; intros w.
  - repeat split.
  - cbn [run_events]. unfold bind.
    pose proof (run_event_same_config e w) as Hstep.
    destruct (run_event e w) as [[] w1]. cbn [snd] in Hstep.
    destruct Hstep as (Hrange & Hid & Hlayout).
    destruct (IH w1) as (Hrange' & Hid' & Hlayout').
    repeat split; congruence.
Qed.

(** X7.  On a layout whose divider field only holds the values 0..3, the
    divider of a node that is within 0..3 stays within 0..3 through every
    history. *)
Theorem divider_stays_in_range (es : list (sam9x5_event R)) w :
  (forall status,
     0 <= field_get (clk_pcr_layout.div_mask (layout_of w)) status
       <= PERIPHERAL_MAX_SHIFT) ->
  0 <= div_of w <= PERIPHERAL_MAX_SHIFT ->
  0 <= div_of (snd (run_events es w)) <= PERIPHERAL_MAX_SHIFT.
Proof.
  revert w. induction es as [|e es IH]; intros w Hfield Hdiv.
  - exact Hdiv.
  - cbn [run_events]. unfold bind.
    pose proof (run_event_stepped e w) as Hstep.
    destruct (run_event e w) as [[] w1]. cbn [snd] in Hstep.
    apply IH.
    + destruct Hstep as [Heq | (d & Heq & _)]; rewrite Heq; exact Hfield.
    + destruct Hstep as [Heq | (d & Heq & [Hd | (status & Hd)])];
        rewrite Heq; [ exact Hdiv | exact Hd | ].
      cbn [clk_sam9x5_peripheral.div]. rewrite Hd. apply Hfield.
Qed.

(** After a history the node is as it was, or its flag is cleared. *)
Lemma run_events_untouched_or_cleared (es : list (sam9x5_event R)) w :
  same_config w (snd (run_events es w)) /\
  (periph (snd (run_events es w)) = periph w \/
   clk_sam9x5_peripheral.auto_div (periph (snd (run_events es w))) = false).
Proof.
  revert w. induction es as [|e es IH]; intros w.
  - split; [ repeat split | left; reflexivity ].
  - cbn [run_events]. unfold bind.
    pose proof (run_event_stepped e w) as Hstep.
    pose proof (run_event_same_config e w) as (Hrange & Hid & Hlayout).
    destruct (run_event e w) as [[] w1]. cbn [snd] in *.
    destruct (IH w1) as ((Hrange' & Hid' & Hlayout') & Hrest).
    split; [ repeat split; congruence | ].
    destruct Hrest as [Hsame | Hoff]; [ | right; exact Hoff ].
    destruct Hstep as [Heq | (d & Heq & _)].
    + left. rewrite Hsame. exact Heq.
    + right. rewrite Hsame, Heq. reflexivity.
Qed.

End NodeHistories.

(** ** The register accesses of the operations *)

Lemma select_then_access_app (off sel : Z) (t1 t2 : list access) :
  select_then_access off sel t1 = true ->
  select_then_access off sel t2 = true ->
  select_then_access off sel (t1 ++ t2) = true.
Proof.
  intros H1 H2.
  assert (Hlen : forall n (t : list access), (List.length t <= n)%nat ->
            select_then_access off sel t = true ->
            select_then_access off sel (t ++ t2) = true).
  { induction n as [|n IH]; intros t Hn Ht.
    - destruct t; [ exact H2 | cbn in Hn; lia ].
    - destruct t as [|a [|b t]]; [ exact H2 | | ].
      + destruct a; discriminate Ht.
      + destruct a; try discriminate Ht.
        destruct b; try discriminate Ht;
          cbn [select_then_access app] in *;
          apply andb_true_iff in Ht; destruct Ht as [Hhead Ht];
          rewrite Hhead; cbn [andb];
          apply IH; [ cbn in Hn; lia | exact Ht | cbn in Hn; lia | exact Ht ].
  }
  apply (Hlen (List.length t1)); [ lia | exact H1 ].
Qed.

Section Accesses.

Context {hdr : PmcHeader}.

Variable answer : list access -> Z -> Z.

Implicit Types (w : world (list access)).

Local Abbreviation offset_of w :=
  (clk_pcr_layout.offset (clk_sam9x5_peripheral.layout (periph w))).
Local Abbreviation selection_of w :=
  (Z.land (clk_sam9x5_peripheral.id (periph w))
          (clk_pcr_layout.pid_mask (clk_sam9x5_peripheral.layout (periph w)))).

(** The accesses of one event: none, or the selection of the node followed by
    one access to the same register. *)
Lemma run_event_accesses (e : sam9x5_event (list access)) w :
  is_operation e = true ->
  exists tx,
    regs (snd (run_event (rm := trace_regmap answer) e w)) = regs w ++ tx /\
    select_then_access (offset_of w) (selection_of w) tx = true.
Proof.
  intros Hop.
  assert (Hnone : exists tx, regs w = regs w ++ tx /\
            select_then_access (offset_of w) (selection_of w) tx = true).
  { exists []. split; [ symmetry; apply app_nil_r | reflexivity ]. }
  assert (Hpair : forall a,
            match a with Write _ _ => False | _ => True end ->
            match a with
            | Read reg | UpdateBits reg _ _ => reg = offset_of w
            | Write _ _ => True
            end ->
            exists tx,
              (regs w ++ [Write (offset_of w) (selection_of w)]) ++ [a]
              = regs w ++ tx /\
              select_then_access (offset_of w) (selection_of w) tx = true).
  { intros a Hkind Hreg.
    exists [Write (offset_of w) (selection_of w); a].
    split; [ rewrite <- app_assoc; reflexivity | ].
    destruct a; [ contradiction | | ]; subst; cbn [select_then_access];
      rewrite !Z.eqb_refl; reflexivity. }
  destruct e; cbn [run_event]; try discriminate Hop.
  - unfold clk_sam9x5_peripheral_enable, select_id, spin_lock_irqsave,
      spin_unlock_irqrestore.
    run_state.
    destruct (_ <? PERIPHERAL_ID_MIN); cbn [snd regs]; [ exact Hnone | ].
    cbn [regmap_write regmap_update_bits trace_regmap]. run_state.
    cbn [snd regs periph]. apply Hpair; [ exact I | reflexivity ].
  - unfold clk_sam9x5_peripheral_disable, select_id, spin_lock_irqsave,
      spin_unlock_irqrestore.
    run_state.
    destruct (_ <? PERIPHERAL_ID_MIN); cbn [snd regs]; [ exact Hnone | ].
    cbn [regmap_write regmap_update_bits trace_regmap]. run_state.
    cbn [snd regs periph]. apply Hpair; [ exact I | reflexivity ].
  - unfold clk_sam9x5_peripheral_is_enabled, select_id, spin_lock_irqsave,
      spin_unlock_irqrestore.
    run_state.
    destruct (_ <? PERIPHERAL_ID_MIN); cbn [snd regs]; [ exact Hnone | ].
    cbn [regmap_write regmap_read trace_regmap]. run_state.
    cbn [snd regs periph]. apply Hpair; [ exact I | reflexivity ].
  - unfold bind, ret.
    destruct (Z_lt_le_dec (clk_sam9x5_peripheral.id (periph w))
                PERIPHERAL_ID_MIN) as [Hlt|Hge].
    { rewrite recalc_rate_always_on by exact Hlt. exact Hnone. }
    rewrite recalc_rate_reads by exact Hge.
    assert (Hread : exists status w1,
              read_pcr (rm := trace_regmap answer) w = (status, w1) /\
              periph w1 = periph w /\
              regs w1
              = (regs w ++ [Write (offset_of w) (selection_of w)])
                ++ [Read (offset_of w)]).
    { unfold read_pcr, select_id, spin_lock_irqsave, spin_unlock_irqrestore.
      run_state. cbn [regmap_write regmap_read trace_regmap]. run_state.
      eexists. eexists. split; [ reflexivity | ]. split; reflexivity. }
    destruct Hread as (status & w1 & -> & Hp & Hregs).
    assert (Hauto : regs (snd (clk_sam9x5_peripheral_autodiv w1)) = regs w1).
    { destruct (autodiv_frame w1) as (Hsame & _). exact Hsame. }
    destruct (negb (_ =? 0)); cbn [snd regs on_periph].
    + rewrite Hregs. apply Hpair; [ exact I | reflexivity ].
    + rewrite Hauto, Hregs. apply Hpair; [ exact I | reflexivity ].
  - unfold bind, ret.
    pose proof (round_rate_pure w rate parent_rate) as Hp.
    destruct (clk_sam9x5_peripheral_round_rate rate parent_rate w) as [r w'].
    cbn [snd] in *. rewrite Hp. exact Hnone.
  - unfold bind, ret.
    assert (Hregs : regs (snd (clk_sam9x5_peripheral_set_rate rate
                                 parent_rate w)) = regs w).
    { unfold clk_sam9x5_peripheral_set_rate. run_state.
      destruct (_ || _); [ destruct (_ =? _); reflexivity | ].
      destruct (_ && _); [ reflexivity | ].
      destruct (set_rate_loop _ _ _ _); reflexivity. }
    destruct (clk_sam9x5_peripheral_set_rate rate parent_rate w) as [r w'].
    cbn [snd] in *. rewrite Hregs. exact Hnone.
  - destruct (autodiv_frame w) as (Hsame & _). rewrite Hsame. exact Hnone.
  - exact Hnone.
Qed.

(** X8.  Through any history of operations on a node, every access to the
    registers is one of a pair: a write of the node's identifier, masked by
    the layout's identifier mask, to the layout's control register, followed
    by one read or one masked update of that same register.  No operation
    reads or updates the register without selecting the node first, and none
    touches another register. *)
Theorem select_then_access_protocol
    (es : list (sam9x5_event (list access))) w :
  forallb is_operation es = true ->
  exists t,
    regs (snd (run_events (rm := trace_regmap answer) es w)) = regs w ++ t /\
    select_then_access (offset_of w) (selection_of w) t = true.
Proof.
  revert w. induction es as [|e es IH]; intros w Hops.
  - exists []. split; [ symmetry; apply app_nil_r | reflexivity ].
  - cbn [forallb] in Hops. apply andb_true_iff in Hops.
    destruct Hops as [Hop Hops].
    cbn [run_events]. unfold bind.
    destruct (run_event_accesses e w Hop) as (tx & Hregs & Htx).
    pose proof (run_event_same_config (rm := trace_regmap answer) e w)
      as (_ & Hid & Hlayout).
    destruct (run_event e w) as [[] w1]. cbn [snd] in *.
    destruct (IH w1 Hops) as (t & Hregs1 & Ht).
    exists (tx ++ t). split.
    + rewrite Hregs1, Hregs, app_assoc. reflexivity.
    + rewrite Hid, Hlayout in Ht.
      apply select_then_access_app; assumption.
Qed.

(** The accesses of one operation of a legacy node whose identifier is at
    most 31. *)
Lemma run_legacy_event_accesses (p : clk_peripheral.t) (e : legacy_event)
    (t : list access) :
  0 <= clk_peripheral.id p <= PERIPHERAL_ID_MAX ->
  exists tx,
    snd (run_legacy_event (rm := trace_regmap answer) p e t) = t ++ tx /\
    forallb (primary_bank_access (clk_peripheral.id p)) tx = true /\
    (clk_peripheral.id p < PERIPHERAL_ID_MIN -> tx = []).
Proof.
  intros Hid.
  assert (Hmask : PERIPHERAL_MASK (clk_peripheral.id p)
                  = Z.shiftl 1 (clk_peripheral.id p)).
  { unfold PERIPHERAL_MASK, PERIPHERAL_ID_MAX in *. f_equal.
    change 31 with (Z.ones 5). rewrite Z.land_ones by lia.
    apply Z.mod_small. change (2 ^ 5) with 32. lia. }
  destruct e; cbn [run_legacy_event];
    unfold clk_peripheral_enable, clk_peripheral_disable,
      clk_peripheral_is_enabled;
    (destruct (Z.ltb_spec (clk_peripheral.id p) PERIPHERAL_ID_MIN);
     [ exists []; cbn; rewrite app_nil_r; repeat split | ]);
    (destruct (Z.ltb_spec PERIPHERAL_ID_MAX (clk_peripheral.id p));
     [ lia | ]);
    cbn [regmap_write regmap_read trace_regmap]; run_state; cbn [snd];
    eexists; (split; [ reflexivity | ]); (split; [ | lia ]);
    cbn [forallb primary_bank_access]; rewrite ?Hmask, ?Z.eqb_refl;
    rewrite ?orb_true_r; reflexivity.
Qed.

(** X9.  A legacy node that registration returned only ever uses the first
    bank of the PMC: through any sequence of enable, disable and is_enabled
    calls, every access is a write of the bit of its identifier to the enable
    or the disable register, or a read of the status register; the second
    bank is never used, nothing is read and modified, and a node with an
    identifier below 2 accesses no register at all. *)
Theorem registered_legacy_node_accesses
    (name parent_name : option string) (id : Z)
    (kzalloc_ok : bool) (clk_hw_register_ret : Z) (p : clk_peripheral.t)
    (es : list legacy_event) (t : list access) :
  0 <= id ->
  at91_clk_register_peripheral name parent_name id kzalloc_ok
    clk_hw_register_ret = HW p ->
  exists tx,
    snd (run_legacy_events (rm := trace_regmap answer) p es t) = t ++ tx /\
    forallb (primary_bank_access id) tx = true /\
    (id < PERIPHERAL_ID_MIN -> tx = []).
Proof.
  intros Hpos Hreg.
  assert (Hp : clk_peripheral.id p = id /\ id <= PERIPHERAL_ID_MAX).
  { unfold at91_clk_register_peripheral in Hreg.
    destruct name, parent_name; cbn [orb] in Hreg; try discriminate Hreg.
    destruct (Z.ltb_spec PERIPHERAL_ID_MAX id); [ discriminate Hreg | ].
    destruct (negb kzalloc_ok); [ discriminate Hreg | ].
    destruct (negb (clk_hw_register_ret =? 0)); [ discriminate Hreg | ].
    injection Hreg as <-. split; [ reflexivity | assumption ]. }
  destruct Hp as [Hid Hmax]. rewrite <- Hid in *. clear Hid Hreg.
  revert t. induction es as [|e es IH]; intros t.
  - exists []. cbn. rewrite app_nil_r. repeat split.
  - cbn [run_legacy_events]. unfold bind.
    destruct (run_legacy_event_accesses p e t ltac:(lia))
      as (tx & Hstep & Hbank & Hnone).
    destruct (run_legacy_event p e t) as [[] t1]. cbn [snd] in Hstep.
    destruct (IH t1) as (tx' & Hrest & Hbank' & Hnone').
    exists (tx ++ tx'). split; [ | split ].
    + rewrite Hrest, Hstep, app_assoc. reflexivity.
    + rewrite forallb_app, Hbank, Hbank'. reflexivity.
    + intros Hlt. rewrite (Hnone Hlt), (Hnone' Hlt). reflexivity.
Qed.

End Accesses.

(** ** Legacy nodes do not disturb each other *)

Lemma PERIPHERAL_MASK_bit (id n : Z) :
  0 <= id <= PERIPHERAL_ID_MAX ->
  Z.testbit (PERIPHERAL_MASK id) n = (id =? n).
Proof.
  intros Hid. unfold PERIPHERAL_MASK, PERIPHERAL_ID_MAX in *.
  change 31 with (Z.ones 5). rewrite Z.land_ones by lia.
  rewrite Z.mod_small by (change (2 ^ 5) with 32; lia).
  rewrite Z.shiftl_1_l. apply Z.pow2_bits_eqb. lia.
Qed.

Section LegacyBits.

Context {hdr : PmcHeader}.

(** X10.  On the bit-array registers, enabling or disabling the clock of one
    legacy node does not change what is_enabled answers for a legacy node
    with another identifier (identifiers 2..31): each node owns one bit of
    the status word. *)
Theorem legacy_nodes_independent (p q : clk_peripheral.t) (m : pmc_bits) :
  AT91_PMC_PCDR <> AT91_PMC_PCER ->
  PERIPHERAL_ID_MIN <= clk_peripheral.id p <= PERIPHERAL_ID_MAX ->
  PERIPHERAL_ID_MIN <= clk_peripheral.id q <= PERIPHERAL_ID_MAX ->
  clk_peripheral.id p <> clk_peripheral.id q ->
  fst ((clk_peripheral_enable (rm := pmc_bits_regmap) p ;;
        clk_peripheral_is_enabled (rm := pmc_bits_regmap) q) m)
  = fst (clk_peripheral_is_enabled (rm := pmc_bits_regmap) q m) /\
  fst ((clk_peripheral_disable (rm := pmc_bits_regmap) p ;;
        clk_peripheral_is_enabled (rm := pmc_bits_regmap) q) m)
  = fst (clk_peripheral_is_enabled (rm := pmc_bits_regmap) q m).
Proof.
  intros Hregs [Hpmin Hpmax] [Hqmin Hqmax] Hne.
  unfold PERIPHERAL_ID_MIN in *.
  assert (Hset : Z.land (Z.lor (pcsr m) (PERIPHERAL_MASK (clk_peripheral.id p)))
                   (PERIPHERAL_MASK (clk_peripheral.id q))
                 = Z.land (pcsr m) (PERIPHERAL_MASK (clk_peripheral.id q))).
  { apply Z.bits_inj'. intros n _.
    rewrite !Z.land_spec, Z.lor_spec, !PERIPHERAL_MASK_bit by lia.
    destruct (Z.eqb_spec (clk_peripheral.id p) n),
             (Z.eqb_spec (clk_peripheral.id q) n);
      try congruence; destruct (Z.testbit (pcsr m) n); reflexivity. }
  assert (Hclear : Z.land (Z.ldiff (pcsr m)
                             (PERIPHERAL_MASK (clk_peripheral.id p)))
                     (PERIPHERAL_MASK (clk_peripheral.id q))
                   = Z.land (pcsr m) (PERIPHERAL_MASK (clk_peripheral.id q))).
  { apply Z.bits_inj'. intros n _.
    rewrite !Z.land_spec, Z.ldiff_spec, !PERIPHERAL_MASK_bit by lia.
    destruct (Z.eqb_spec (clk_peripheral.id p) n),
             (Z.eqb_spec (clk_peripheral.id q) n);
      try congruence; destruct (Z.testbit (pcsr m) n); reflexivity. }
  unfold clk_peripheral_enable, clk_peripheral_disable,
    clk_peripheral_is_enabled, PERIPHERAL_ID_MIN.
  destruct (Z.ltb_spec (clk_peripheral.id p) 2); [ lia | ].
  destruct (Z.ltb_spec (clk_peripheral.id q) 2); [ lia | ].
  destruct (Z.ltb_spec PERIPHERAL_ID_MAX (clk_peripheral.id p)); [ lia | ].
  destruct (Z.ltb_spec PERIPHERAL_ID_MAX (clk_peripheral.id q)); [ lia | ].
  cbn [regmap_write regmap_read pmc_bits_regmap].
  unfold pmc_bits_write, pmc_bits_read. run_state.
  destruct (Z.eqb_spec AT91_PMC_PCDR AT91_PMC_PCER); [ contradiction | ].
  rewrite !Z.eqb_refl. cbn [fst pcsr].
  rewrite Hset, Hclear. split; reflexivity.
Qed.

End LegacyBits.

(** ** The node that registration returns *)

Section Registration.

Context {hdr : PmcHeader} {R : Type} {rm : Regmap R}.

Lemma register_sam9x5_no_callbacks
    (regmap : R) (lock : bool) (layout : clk_pcr_layout.t)
    (name parent_name : option string) (id : Z) (range : clk_range.t)
    (kzalloc_ok : bool) (clk_hw_register_ret : Z) (parent_rate : Z) :
  at91_clk_register_sam9x5_peripheral_cb regmap lock layout name
    parent_name id range kzalloc_ok [] clk_hw_register_ret parent_rate
  = at91_clk_register_sam9x5_peripheral regmap lock layout name parent_name
      id range kzalloc_ok clk_hw_register_ret parent_rate.
Proof. reflexivity. Qed.

(** X11.  When at91_clk_register_sam9x5_peripheral succeeds (a name and a
    parent name, allocation and registration with the framework succeed),
    then whatever the clock framework called on the node inside
    clk_hw_register: the node it returns has the identifier, range and
    layout it was given; and if its auto-divider flag is still set, the node
    is exactly as it was allocated (divider 0), the layout has a divider
    field, the range has a maximum, and the parent has no rate.  So the flag
    is clear after registration whenever the layout has no divider field,
    the range has no maximum, or the parent has a rate. *)
Theorem registered_sam9x5_node
    (regmap : R) (lock : bool) (layout : clk_pcr_layout.t)
    (name parent_name : string) (id : Z) (range : clk_range.t)
    (callbacks : list (sam9x5_event R)) (parent_rate : Z) :
  exists w,
    at91_clk_register_sam9x5_peripheral_cb regmap lock layout
      (Some name) (Some parent_name) id range true callbacks 0 parent_rate
    = HW w /\
    (clk_sam9x5_peripheral.id (periph w) = id /\
     clk_sam9x5_peripheral.range (periph w) = range /\
     clk_sam9x5_peripheral.layout (periph w) = layout) /\
    (clk_sam9x5_peripheral.auto_div (periph w) = true ->
     periph w = clk_sam9x5_peripheral.mk range id 0 layout true /\
     clk_pcr_layout.div_mask layout <> 0 /\
     clk_range.max range <> 0 /\
     parent_hw_rate w = 0) /\
    (clk_pcr_layout.div_mask layout = 0 \/ clk_range.max range = 0 \/
     parent_hw_rate w <> 0 ->
     clk_sam9x5_peripheral.auto_div (periph w) = false).
Proof.
  unfold at91_clk_register_sam9x5_peripheral_cb. cbn [orb negb Z.eqb].
  set (p0 := clk_sam9x5_peripheral.mk range id 0 layout
               (negb (clk_pcr_layout.div_mask layout =? 0))).
  set (w0 := World p0 regmap lock parent_rate).
  destruct (run_events_untouched_or_cleared callbacks w0)
    as ((Hrange & Hid & Hlayout) & Hnode).
  set (w1 := snd (run_events callbacks w0)) in *.
  destruct (autodiv_frame w1) as (_ & _ & Hrate & Hrange' & Hid' & Hlayout').
  eexists. split; [ reflexivity | ].
  assert (Hconfig :
            clk_sam9x5_peripheral.id
              (periph (snd (clk_sam9x5_peripheral_autodiv w1))) = id /\
            clk_sam9x5_peripheral.range
              (periph (snd (clk_sam9x5_peripheral_autodiv w1))) = range /\
            clk_sam9x5_peripheral.layout
              (periph (snd (clk_sam9x5_peripheral_autodiv w1))) = layout).
  { rewrite Hid', Hrange', Hlayout', Hid, Hrange, Hlayout.
    repeat split. }
  assert (Hpending :
            clk_sam9x5_peripheral.auto_div
              (periph (snd (clk_sam9x5_peripheral_autodiv w1))) = true ->
            periph (snd (clk_sam9x5_peripheral_autodiv w1))
            = clk_sam9x5_peripheral.mk range id 0 layout true /\
            clk_pcr_layout.div_mask layout <> 0 /\
            clk_range.max range <> 0 /\
            parent_hw_rate (snd (clk_sam9x5_peripheral_autodiv w1)) = 0).
  { intros Hon.
    destruct (clk_sam9x5_peripheral.auto_div (periph w1)) eqn:Hflag.
    2:{ rewrite autodiv_cleared in Hon by exact Hflag. cbn [snd] in Hon.
        congruence. }
    destruct Hnode as [Hsame | Hoff]; [ | congruence ].
    assert (Hmask : clk_pcr_layout.div_mask layout <> 0).
    { rewrite Hsame in Hflag. unfold w0, p0 in Hflag. cbn in Hflag.
      destruct (Z.eqb_spec (clk_pcr_layout.div_mask layout) 0);
        [ discriminate Hflag | assumption ]. }
    assert (Hp1 : periph w1
                  = clk_sam9x5_peripheral.mk range id 0 layout true).
    { rewrite Hsame. unfold w0, p0. cbn.
      destruct (Z.eqb_spec (clk_pcr_layout.div_mask layout) 0);
        [ contradiction | reflexivity ]. }
    assert (Hmax1 : clk_range.max
                      (clk_sam9x5_peripheral.range (periph w1))
                    = clk_range.max range) by (rewrite Hp1; reflexivity).
    destruct (Z.eq_dec (clk_range.max range) 0) as [Hz|Hnz].
    { rewrite autodiv_unranged in Hon by congruence. discriminate Hon. }
    destruct (Z.eq_dec (parent_hw_rate w1) 0) as [Hr|Hr].
    - rewrite autodiv_no_parent_rate by congruence. cbn [snd].
      repeat split; assumption.
    - rewrite autodiv_resolves in Hon by congruence. discriminate Hon. }
  split; [ exact Hconfig | ]. split; [ exact Hpending | ].
  intros Hclear.
  destruct (clk_sam9x5_peripheral.auto_div
              (periph (snd (clk_sam9x5_peripheral_autodiv w1)))) eqn:Hflag;
    [ | reflexivity ].
  destruct (Hpending eq_refl) as (_ & Hmask & Hmax & Hr).
  destruct Hclear as [H | [H | H]]; contradiction.
Qed.

End Registration.

(** ** Rounding twice, and the divider that enable programs *)

Section Rounding.

Context {R : Type}.

Implicit Types (w : world R) (rate parent_rate : Z).

Local Abbreviation id_of w := (clk_sam9x5_peripheral.id (periph w)).
Local Abbreviation max_of w :=
  (clk_range.max (clk_sam9x5_peripheral.range (periph w))).

(** X12.  A rate the divider can produce within the maximum is rounded to
    itself: on a node with a divider, round_rate returns every candidate at
    a shift from the ceiling shift to 3 unchanged.  As a consequence, on any
    node, rounding the result of round_rate again gives the same rate. *)
Theorem round_rate_fixed_point w rate parent_rate :
  0 <= parent_rate ->
  (PERIPHERAL_ID_MIN <= id_of w -> max_of w <> 0 ->
   forall s0 s,
     ceiling_shift parent_rate (max_of w) s0 ->
     s0 <= s <= PERIPHERAL_MAX_SHIFT ->
     fst (clk_sam9x5_peripheral_round_rate (Z.shiftr parent_rate s)
            parent_rate w)
     = Z.shiftr parent_rate s) /\
  fst (clk_sam9x5_peripheral_round_rate
         (fst (clk_sam9x5_peripheral_round_rate rate parent_rate w))
         parent_rate w)
  = fst (clk_sam9x5_peripheral_round_rate rate parent_rate w).
Proof.
  intros Hpr.
  assert (Hfix : PERIPHERAL_ID_MIN <= id_of w -> max_of w <> 0 ->
            forall s0 s,
              ceiling_shift parent_rate (max_of w) s0 ->
              s0 <= s <= PERIPHERAL_MAX_SHIFT ->
              fst (clk_sam9x5_peripheral_round_rate (Z.shiftr parent_rate s)
                     parent_rate w)
              = Z.shiftr parent_rate s).
  { intros Hid Hmax s0 s Hceil Hs.
    rewrite round_rate_divider by assumption. cbn [fst].
    rewrite (round_rate_ceil_loop_ceiling _ _ _ shift_turns Hceil)
      by (destruct Hceil; try apply shift_turns_enough; lia).
    destruct Hceil as (Hs0 & Hle & _).
    pose proof (shiftr_antitone parent_rate s0 s Hpr ltac:(lia)) as Hbelow.
    destruct (Z.leb_spec (Z.shiftr parent_rate s0) (Z.shiftr parent_rate s))
      as [Hret|Hsearch]; [ lia | ].
    pose proof (round_rate_best_loop_spec (Z.shiftr parent_rate s)
                  parent_rate shift_turns Hpr
                  s0 (Z.shiftr parent_rate s0) _
                  ltac:(lia) (shift_turns_enough s0 ltac:(lia)) Hsearch
                  eq_refl ltac:(lia)) as (_ & _ & _ & Hmin).
    cbn zeta in Hmin. specialize (Hmin s Hs). lia. }
  split; [ exact Hfix | ].
  destruct (Z_lt_le_dec (id_of w) PERIPHERAL_ID_MIN) as [Hlt|Hge];
    [ | destruct (Z.eq_dec (max_of w) 0) as [Hz|Hnz] ].
  1,2: rewrite !round_rate_no_divider by (auto; fail); reflexivity.
  destruct (round_rate_candidate w rate parent_rate Hge Hnz Hpr)
    as [Hceil Hnone].
  cbn zeta in Hceil, Hnone.
  destruct (ceiling_or_none parent_rate (max_of w)) as [(s0 & Hs0) | Hno].
  - destruct (Hceil s0 Hs0) as (s & Hs & Hr & _).
    rewrite Hr. apply (Hfix Hge Hnz s0 s Hs0 Hs).
  - rewrite (Hnone Hno).
    destruct (round_rate_candidate w
                (Z.shiftr parent_rate PERIPHERAL_MAX_SHIFT) parent_rate
                Hge Hnz Hpr) as [_ Hagain].
    exact (Hagain Hno).
Qed.

End Rounding.

Section Programming.

Context {hdr : PmcHeader}.

Variable answer : list access -> Z -> Z.

Implicit Types (w : world (list access)).

(** X13.  set_rate only records the divider; the registers get it at the
    next enable.  After set_rate has accepted a rate on a node with a
    divider, enable makes exactly two accesses: the selection of the node,
    and one masked update of the control register that sets the divider
    field to the first shift that divides the parent rate to the accepted
    rate, together with the command and enable bits; it then leaves the lock
    free. *)
Theorem set_rate_programmed_by_enable w rate parent_rate :
  PERIPHERAL_ID_MIN <= clk_sam9x5_peripheral.id (periph w) ->
  clk_range.max (clk_sam9x5_peripheral.range (periph w)) <> 0 ->
  fst (clk_sam9x5_peripheral_set_rate rate parent_rate w) = 0 ->
  let w1 := snd (clk_sam9x5_peripheral_set_rate rate parent_rate w) in
  let w2 :=
    snd (clk_sam9x5_peripheral_enable (rm := trace_regmap answer) w1) in
  let l := clk_sam9x5_peripheral.layout (periph w) in
  exists d,
    exact_shift rate parent_rate d /\
    regs w2
    = regs w ++
      [Write (clk_pcr_layout.offset l)
         (Z.land (clk_sam9x5_peripheral.id (periph w))
                 (clk_pcr_layout.pid_mask l));
       UpdateBits (clk_pcr_layout.offset l)
         (Z.lor (Z.lor (clk_pcr_layout.div_mask l) (clk_pcr_layout.cmd l))
                AT91_PMC_PCR_EN)
         (Z.lor (Z.lor (field_prep (clk_pcr_layout.div_mask l) d)
                       (clk_pcr_layout.cmd l))
                AT91_PMC_PCR_EN)] /\
    pmc_pcr_lock w2 = false.
Proof.
  intros Hid Hmax.
  destruct (set_rate_divider_cases w rate parent_rate Hid Hmax)
    as [(_ & ->) | [(_ & _ & ->) | (_ & s & Hs & ->)]];
    cbn [fst snd]; try (unfold EINVAL; discriminate).
  intros _. exists s. split; [ exact Hs | ].
  unfold clk_sam9x5_peripheral_enable, select_id, spin_lock_irqsave,
    spin_unlock_irqrestore.
  run_state.
  cbn [periph clk_sam9x5_peripheral.id clk_sam9x5_peripheral.set_div
         clk_sam9x5_peripheral.set_auto_div].
  destruct (Z.ltb_spec (clk_sam9x5_peripheral.id (periph w))
              PERIPHERAL_ID_MIN); [ lia | ].
  cbn [regmap_write regmap_update_bits trace_regmap]. run_state.
  cbn [snd regs periph pmc_pcr_lock clk_sam9x5_peripheral.layout
         clk_sam9x5_peripheral.div clk_sam9x5_peripheral.id].
  split; [ rewrite <- app_assoc; reflexivity | reflexivity ].
Qed.

End Programming.

(** * The further properties on the SAM9X5 *)

(** The divider field of the SAM9X5 layout is two bits wide. *)
Lemma sam9x5_div_field_bounded (status : Z) :
  0 <= @field_get sam9x5_pmc_h
         (clk_pcr_layout.div_mask at91sam9x5_pcr_layout) status
    <= PERIPHERAL_MAX_SHIFT.
Proof.
  cbn [field_get sam9x5_pmc_h].
  change (ffs (clk_pcr_layout.div_mask at91sam9x5_pcr_layout) - 1) with 16.
  rewrite Z.shiftr_land.
  change (Z.shiftr (clk_pcr_layout.div_mask at91sam9x5_pcr_layout) 16)
    with (Z.ones 2).
  rewrite Z.land_ones by lia.
  change (2 ^ 2) with 4. unfold PERIPHERAL_MAX_SHIFT.
  pose proof (Z.mod_pos_bound (Z.shiftr status 16) 4 ltac:(lia)). lia.
Qed.

(** A request for 70 MHz under a parent at 133 MHz, with a [long] of 32
    bits, is answered with the parent rate divided by two. *)
Lemma round_rate_achievable_sam9x5 :
  let w := sam9x5_world 2 83000000 133000000 in
  let r :=
    long_of_ulong 32
      (fst (clk_sam9x5_peripheral_round_rate 70000000 133000000 w)) in
  0 <= 133000000 < 2 ^ (32 - 1) /\
  (exists s, 0 <= s <= PERIPHERAL_MAX_SHIFT /\ r = Z.shiftr 133000000 s) /\
  0 <= r <= 133000000.
Proof.
  cbn zeta.
  assert (Hpr : 0 <= 133000000 < 2 ^ (32 - 1))
    by (vm_compute; split; [ discriminate | reflexivity ]).
  split; [ exact Hpr | ].
  exact (round_rate_achievable (sam9x5_world 2 83000000 133000000)
           70000000 133000000 32 Hpr).
Defined.

(** The rounded 66.5 MHz is accepted by set_rate, with divider 1. *)
Lemma round_rate_then_set_rate_sam9x5 :
  let w := sam9x5_world 2 83000000 133000000 in
  let res :=
    clk_sam9x5_peripheral_set_rate
      (fst (clk_sam9x5_peripheral_round_rate 70000000 133000000 w))
      133000000 w in
  0 <= 133000000 /\
  fst res = 0 /\
  clk_sam9x5_peripheral.div (periph (snd res)) = 1 /\
  Z.shiftr 133000000 (clk_sam9x5_peripheral.div (periph (snd res)))
  = fst (clk_sam9x5_peripheral_round_rate 70000000 133000000 w) /\
  clk_sam9x5_peripheral.auto_div (periph (snd res)) = false.
Proof.
  cbn zeta.
  assert (Hpr : 0 <= 133000000) by lia.
  split; [ exact Hpr | ].
  destruct (round_rate_then_set_rate (sam9x5_world 2 83000000 133000000)
              70000000 133000000 Hpr) as [_ Hdiv].
  destruct Hdiv as [Hfits _]; [ vm_compute; split; discriminate | ].
  destruct Hfits as (Hok & Hrate & Hflag); [ vm_compute; discriminate | ].
  split; [ exact Hok | ]. split; [ reflexivity | ].
  split; [ exact Hrate | exact Hflag ].
Defined.

(** After set_rate to 16.625 MHz on a node whose clock is off, recalc_rate
    reports 16.625 MHz. *)
Lemma set_rate_then_recalc_rate_sam9x5 :
  let w := sam9x5_world 2 83000000 133000000 in
  let w1 := snd (clk_sam9x5_peripheral_set_rate 16625000 133000000 w) in
  PERIPHERAL_ID_MIN <= clk_sam9x5_peripheral.id (periph w) /\
  clk_range.max (clk_sam9x5_peripheral.range (periph w)) <> 0 /\
  fst (clk_sam9x5_peripheral_set_rate 16625000 133000000 w) = 0 /\
  Z.land (fst (read_pcr (rm := pcr_regmap) w1))
    (@AT91_PMC_PCR_EN sam9x5_pmc_h) = 0 /\
  fst (clk_sam9x5_peripheral_recalc_rate (hdr := sam9x5_pmc_h)
         (rm := pcr_regmap) 133000000 w1) = 16625000.
Proof.
  cbn zeta.
  assert (Hid : PERIPHERAL_ID_MIN
                <= clk_sam9x5_peripheral.id
                     (periph (sam9x5_world 2 83000000 133000000)))
    by (vm_compute; discriminate).
  assert (Hmax : clk_range.max
                   (clk_sam9x5_peripheral.range
                      (periph (sam9x5_world 2 83000000 133000000))) <> 0)
    by (vm_compute; discriminate).
  assert (Hok : fst (clk_sam9x5_peripheral_set_rate 16625000 133000000
                       (sam9x5_world 2 83000000 133000000)) = 0)
    by reflexivity.
  assert (Hoff : Z.land
                   (fst (read_pcr (rm := pcr_regmap)
                           (snd (clk_sam9x5_peripheral_set_rate 16625000
                                   133000000
                                   (sam9x5_world 2 83000000 133000000)))))
                   (@AT91_PMC_PCR_EN sam9x5_pmc_h) = 0)
    by reflexivity.
  split; [ exact Hid | ]. split; [ exact Hmax | ]. split; [ exact Hok | ].
  split; [ exact Hoff | ].
  exact (proj1 (set_rate_then_recalc_rate (hdr := sam9x5_pmc_h)
                  (rm := pcr_regmap) (sam9x5_world 2 83000000 133000000)
                  16625000 133000000 Hid Hmax Hok Hoff)).
Defined.

(** A node found running with divider 3, through a history. *)
Lemma divider_stays_in_range_sam9x5 :
  let w := sam9x5_world_running 2 83000000 133000000 3 in
  let es :=
    [RecalcRate 133000000; SetRate 66500000 133000000; Enable;
     RecalcRate 133000000; RegsChange (fun _ => pcr_running 2 2);
     RecalcRate 133000000] in
  0 <= clk_sam9x5_peripheral.div (periph w) <= PERIPHERAL_MAX_SHIFT /\
  0 <= clk_sam9x5_peripheral.div
         (periph (snd (run_events (hdr := sam9x5_pmc_h) (rm := pcr_regmap)
                         es w)))
    <= PERIPHERAL_MAX_SHIFT.
Proof.
  cbn zeta.
  assert (Hdiv : 0 <= clk_sam9x5_peripheral.div
                        (periph (sam9x5_world_running 2 83000000
                                   133000000 3))
                 <= PERIPHERAL_MAX_SHIFT)
    by (vm_compute; split; discriminate).
  split; [ exact Hdiv | ].
  exact (divider_stays_in_range (hdr := sam9x5_pmc_h) (rm := pcr_regmap)
           _ (sam9x5_world_running 2 83000000 133000000 3)
           sam9x5_div_field_bounded Hdiv).
Defined.

(** The accesses of a history on registers that always answer "enabled". *)
Lemma select_then_access_protocol_sam9x5 :
  let answer := fun (_ : list access) (_ : Z) => Z.shiftl 1 28 in
  let w :=
    World
      (clk_sam9x5_peripheral.mk (clk_range.mk 0 83000000) 2 0
         at91sam9x5_pcr_layout true)
      ([] : list access) false 133000000 in
  let es :=
    [Enable; IsEnabled; RecalcRate 133000000; SetRate 66500000 133000000;
     RoundRate 70000000 133000000; Autodiv; Disable] in
  forallb (@is_operation (list access)) es = true /\
  exists t,
    regs (snd (run_events (hdr := sam9x5_pmc_h) (rm := trace_regmap answer)
                 es w)) = regs w ++ t /\
    select_then_access 268 2 t = true.
Proof.
  cbn zeta. split; [ reflexivity | ].
  apply (select_then_access_protocol (hdr := sam9x5_pmc_h)).
  reflexivity.
Defined.

(** The legacy node of peripheral 5, as registered. *)
Lemma registered_legacy_node_accesses_sam9x5 :
  let answer := fun (_ : list access) (_ : Z) => 0 in
  let p := clk_peripheral.mk 5 in
  0 <= 5 /\
  at91_clk_register_peripheral (Some "pioA_clk"%string)
    (Some "masterck"%string) 5 true 0 = HW p /\
  exists tx,
    snd (run_legacy_events (hdr := sam9x5_pmc_h) (rm := trace_regmap answer)
           p [LegacyEnable; LegacyIsEnabled; LegacyDisable] [])
    = [] ++ tx /\
    forallb (primary_bank_access (hdr := sam9x5_pmc_h) 5) tx = true /\
    (5 < PERIPHERAL_ID_MIN -> tx = []).
Proof.
  cbn zeta.
  assert (Hpos : 0 <= 5) by lia.
  assert (Hreg : at91_clk_register_peripheral (Some "pioA_clk"%string)
                   (Some "masterck"%string) 5 true 0
                 = HW (clk_peripheral.mk 5)) by reflexivity.
  split; [ exact Hpos | ]. split; [ exact Hreg | ].
  exact (registered_legacy_node_accesses (hdr := sam9x5_pmc_h) _ _ _ _ _ _ _
           _ [] Hpos Hreg).
Defined.

(** Peripherals 5 and 6: the clock of 6 stays on while 5 is switched. *)
Lemma legacy_nodes_independent_sam9x5 :
  let p := clk_peripheral.mk 5 in
  let q := clk_peripheral.mk 6 in
  let m := {| pcsr := 64; pcsr1 := 0 |} in
  @AT91_PMC_PCDR sam9x5_pmc_h <> @AT91_PMC_PCER sam9x5_pmc_h /\
  PERIPHERAL_ID_MIN <= clk_peripheral.id p <= PERIPHERAL_ID_MAX /\
  PERIPHERAL_ID_MIN <= clk_peripheral.id q <= PERIPHERAL_ID_MAX /\
  clk_peripheral.id p <> clk_peripheral.id q /\
  fst ((clk_peripheral_enable (hdr := sam9x5_pmc_h)
          (rm := pmc_bits_regmap (hdr := sam9x5_pmc_h)) p ;;
        clk_peripheral_is_enabled (hdr := sam9x5_pmc_h)
          (rm := pmc_bits_regmap (hdr := sam9x5_pmc_h)) q) m) = 1 /\
  fst ((clk_peripheral_disable (hdr := sam9x5_pmc_h)
          (rm := pmc_bits_regmap (hdr := sam9x5_pmc_h)) p ;;
        clk_peripheral_is_enabled (hdr := sam9x5_pmc_h)
          (rm := pmc_bits_regmap (hdr := sam9x5_pmc_h)) q) m) = 1.
Proof.
  cbn zeta.
  assert (Hregs : @AT91_PMC_PCDR sam9x5_pmc_h <> @AT91_PMC_PCER sam9x5_pmc_h)
    by (vm_compute; discriminate).
  assert (Hp : PERIPHERAL_ID_MIN <= clk_peripheral.id (clk_peripheral.mk 5)
               <= PERIPHERAL_ID_MAX)
    by (vm_compute; split; discriminate).
  assert (Hq : PERIPHERAL_ID_MIN <= clk_peripheral.id (clk_peripheral.mk 6)
               <= PERIPHERAL_ID_MAX)
    by (vm_compute; split; discriminate).
  assert (Hne : clk_peripheral.id (clk_peripheral.mk 5)
                <> clk_peripheral.id (clk_peripheral.mk 6))
    by (vm_compute; discriminate).
  split; [ exact Hregs | ]. split; [ exact Hp | ]. split; [ exact Hq | ].
  split; [ exact Hne | ].
  destruct (legacy_nodes_independent (hdr := sam9x5_pmc_h)
              (clk_peripheral.mk 5) (clk_peripheral.mk 6)
              {| pcsr := 64; pcsr1 := 0 |} Hregs Hp Hq Hne) as [Hen Hdis].
  split; [ rewrite Hen | rewrite Hdis ]; reflexivity.
Defined.

(** Every rate the SAM9X5 divider offers under the maximum is kept. *)
Lemma round_rate_fixed_point_sam9x5 :
  let w := sam9x5_world 2 83000000 133000000 in
  0 <= 133000000 /\
  fst (clk_sam9x5_peripheral_round_rate 33250000 133000000 w) = 33250000 /\
  fst (clk_sam9x5_peripheral_round_rate
         (fst (clk_sam9x5_peripheral_round_rate 40000000 133000000 w))
         133000000 w)
  = fst (clk_sam9x5_peripheral_round_rate 40000000 133000000 w).
Proof.
  cbn zeta.
  assert (Hpr : 0 <= 133000000) by lia.
  split; [ exact Hpr | ]. split; [ reflexivity | ].
  exact (proj2 (round_rate_fixed_point (sam9x5_world 2 83000000 133000000)
                  40000000 133000000 Hpr)).
Defined.

(** set_rate to 33.25 MHz, then enable: the divider field gets 2. *)
Lemma set_rate_programmed_by_enable_sam9x5 :
  let answer := fun (_ : list access) (_ : Z) => 0 in
  let l := at91sam9x5_pcr_layout in
  let w :=
    World
      (clk_sam9x5_peripheral.mk (clk_range.mk 0 83000000) 2 0 l true)
      ([] : list access) false 133000000 in
  let w2 :=
    snd (clk_sam9x5_peripheral_enable (hdr := sam9x5_pmc_h)
           (rm := trace_regmap answer)
           (snd (clk_sam9x5_peripheral_set_rate 33250000 133000000 w))) in
  PERIPHERAL_ID_MIN <= clk_sam9x5_peripheral.id (periph w) /\
  clk_range.max (clk_sam9x5_peripheral.range (periph w)) <> 0 /\
  fst (clk_sam9x5_peripheral_set_rate 33250000 133000000 w) = 0 /\
  (exists d,
     exact_shift 33250000 133000000 d /\
     regs w2
     = regs w ++
       [Write (clk_pcr_layout.offset l)
          (Z.land (clk_sam9x5_peripheral.id (periph w))
                  (clk_pcr_layout.pid_mask l));
        UpdateBits (clk_pcr_layout.offset l)
          (Z.lor (Z.lor (clk_pcr_layout.div_mask l) (clk_pcr_layout.cmd l))
                 (@AT91_PMC_PCR_EN sam9x5_pmc_h))
          (Z.lor (Z.lor (@field_prep sam9x5_pmc_h
                           (clk_pcr_layout.div_mask l) d)
                        (clk_pcr_layout.cmd l))
                 (@AT91_PMC_PCR_EN sam9x5_pmc_h))] /\
     pmc_pcr_lock w2 = false) /\
  regs w2 = [Write 268 2; UpdateBits 268 268636160 268570624].
Proof.
  cbn zeta.
  set (w := World
              (clk_sam9x5_peripheral.mk (clk_range.mk 0 83000000) 2 0
                 at91sam9x5_pcr_layout true)
              ([] : list access) false 133000000).
  assert (Hid : PERIPHERAL_ID_MIN <= clk_sam9x5_peripheral.id (periph w))
    by (vm_compute; discriminate).
  assert (Hmax : clk_range.max (clk_sam9x5_peripheral.range (periph w)) <> 0)
    by (vm_compute; discriminate).
  assert (Hok : fst (clk_sam9x5_peripheral_set_rate 33250000 133000000 w)
                = 0) by reflexivity.
  split; [ exact Hid | ]. split; [ exact Hmax | ]. split; [ exact Hok | ].
  split; [ | reflexivity ].
  exact (set_rate_programmed_by_enable (hdr := sam9x5_pmc_h)
           (fun _ _ => 0) w 33250000 133000000 Hid Hmax Hok).
Defined.

(** Registration on the SAM9X5 when the framework asks recalc_rate for the
    rate inside clk_hw_register.  With the clock off and a parent without
    rate, the node stays as allocated, its auto-division pending; with the
    clock left running at divider 2, it takes that divider over. *)
Lemma registered_sam9x5_node_sam9x5 :
  let register regmap parent_rate :=
    at91_clk_register_sam9x5_peripheral_cb (hdr := sam9x5_pmc_h)
      (rm := pcr_regmap) regmap false at91sam9x5_pcr_layout
      (Some "pioA_clk"%string) (Some "masterck"%string) 2
      (clk_range.mk 0 83000000) true [RecalcRate parent_rate] 0
      parent_rate in
  (exists w,
     register pcr_reset 0 = HW w /\
     clk_sam9x5_peripheral.auto_div (periph w) = true /\
     periph w
     = clk_sam9x5_peripheral.mk (clk_range.mk 0 83000000) 2 0
         at91sam9x5_pcr_layout true) /\
  (exists w,
     register (pcr_running 2 2) 133000000 = HW w /\
     clk_sam9x5_peripheral.auto_div (periph w) = false /\
     clk_sam9x5_peripheral.div (periph w) = 2).
Proof.
  cbn zeta. split.
  - destruct (registered_sam9x5_node (hdr := sam9x5_pmc_h) (rm := pcr_regmap)
                pcr_reset false at91sam9x5_pcr_layout "pioA_clk"%string
                "masterck"%string 2 (clk_range.mk 0 83000000)
                [RecalcRate 0] 0)
      as (w & Heq & _ & Hpending & _).
    exists w. split; [ exact Heq | ].
    assert (Hon : clk_sam9x5_peripheral.auto_div (periph w) = true).
    { unfold at91_clk_register_sam9x5_peripheral_cb in Heq.
      cbn [orb negb Z.eqb] in Heq. injection Heq as <-. reflexivity. }
    split; [ exact Hon | ]. apply Hpending. exact Hon.
  - eexists. split; [ reflexivity | ]. split; reflexivity.
Defined.
